(** * MessageLoggerPlus: retention policy, list maintenance and
      deleted-message reconciliation

    A shallow embedding of [utils/index.ts] of the message-logger plugin:
    [shouldIgnore], [addToX] / [removeFromX] /
    [addToXAndRemoveFromOpposite] and [reAddDeletedMessages].

    Conventions of the embedding.
    - A JavaScript string is a [string]; its characters stand for the code
      units U+0000..U+00FF, which covers every identifier (snowflakes are
      decimal numerals) and lets [trim] and [toLowerCase] be written out.
      Text with code units above U+00FF is outside the embedding.
    - The mutable [settings.store] is a record passed in and, for the list
      operations, returned.
    - The stores the code queries ([UserStore], [ChannelStore],
      [UserGuildSettingsStore]) are gathered in an environment record.
    - [Flogger.log] only writes diagnostics and never influences the
      returned value; it is left out. *)

From Stdlib Require Import ZArith Ascii String List Bool Lia SpecFloat Sorted.
From stdpp Require Import base option list strings gmap.

Import ListNotations.
Local Open Scope string_scope.
Local Open Scope Z_scope.

(** ** JavaScript string primitives *)

Module JsString.

Definition comma : ascii := ","%char.

(** [WhiteSpace] and [LineTerminator] code units below U+0100:
    TAB, LF, VT, FF, CR, SP and NBSP. *)
Definition isWhiteSpace (c : ascii) : bool :=
  let n := N_of_ascii c in
  ((9 <=? n)%N && (n <=? 13)%N) || (n =? 32)%N || (n =? 160)%N.

(** [String.prototype.toLowerCase] on one code unit: A-Z and the
    Latin-1 capitals U+00C0..U+00DE (U+00D7, the multiplication sign,
    excepted) move up by 32. *)
Definition lowerChar (c : ascii) : ascii :=
  let n := N_of_ascii c in
  if ((65 <=? n)%N && (n <=? 90)%N)
     || ((192 <=? n)%N && (n <=? 222)%N && negb (n =? 215)%N)
  then ascii_of_N (n + 32) else c.

Fixpoint toLowerCase (s : string) : string :=
  match s with
  | EmptyString => EmptyString
  | String c s' => String (lowerChar c) (toLowerCase s')
  end.

Fixpoint trimStart (s : string) : string :=
  match s with
  | EmptyString => EmptyString
  | String c s' => if isWhiteSpace c then trimStart s' else s
  end.

Fixpoint trimEnd (s : string) : string :=
  match s with
  | EmptyString => EmptyString
  | String c s' =>
      match trimEnd s' with
      | EmptyString => if isWhiteSpace c then EmptyString else String c EmptyString
      | t => String c t
      end
  end.

Definition trim (s : string) : string := trimEnd (trimStart s).

(** [s.includes(sub)]: [sub] occurs in [s] as a contiguous substring. *)
Fixpoint includes (s sub : string) : bool :=
  String.prefix sub s ||
  match s with
  | EmptyString => false
  | String _ s' => includes s' sub
  end.

(** [s.split(",")]: never empty, the empty string gives one empty
    field. *)
Fixpoint split (s : string) : list string :=
  match s with
  | EmptyString => [EmptyString]
  | String c s' =>
      if Ascii.eqb c comma then EmptyString :: split s'
      else match split s' with
           | [] => [String c EmptyString]
           | h :: t => String c h :: t
           end
  end.

(** [items.join(",")]. *)
Fixpoint join (items : list string) : string :=
  match items with
  | [] => EmptyString
  | [x] => x
  | x :: rest => x +:+ String comma (join rest)
  end.

(** A string is truthy when it is not empty. *)
Definition truthy (s : string) : bool := negb (String.eqb s EmptyString).

(** [items.indexOf(x)] as an option: [None] is the code's [-1]. *)
Fixpoint indexOf (items : list string) (x : string) : option nat :=
  match items with
  | [] => None
  | y :: rest => if String.eqb y x then Some 0%nat
                 else option_map S (indexOf rest x)
  end.

(** [items.splice(index, 1)]: the list without the element at
    [index]. *)
Definition splice1 (index : nat) (items : list string) : list string :=
  take index items ++ drop (S index) items.

End JsString.

(** ** The settings store and the message context *)

(** The fields of [settings.store] that the code reads: the three
    comma-joined strings and the toggles. *)
Record Settings := mkSettings {
  whitelistedIds : string;
  blacklistedIds : string;
  blacklistedWords : string;
  alwaysLogDirectMessages : bool;
  alwaysLogCurrentChannel : bool;
  ignoreBots : bool;
  ignoreSelf : bool;
  ignoreMutedGuilds : bool;
  ignoreMutedCategories : bool;
  ignoreMutedChannels : bool;
  cacheMessagesFromServers : bool
}.

(** [interface ShouldIgnoreArguments]; a field marked [?] is an option,
    [None] being [undefined]. *)
Record ShouldIgnoreArguments := mkArgs {
  channelId : string;
  authorId : string;
  guildId : option string;
  flags : Z;
  bot : bool;
  ghostPinged : option bool;
  isCachedByUs : option bool;
  content : option string
}.

(** What [shouldIgnore] reads from the host: the current user's id, the
    DM predicate of a channel and the three mute predicates. *)
Record Env := mkEnv {
  myId : string;
  isDM : string -> bool;
  isMuted : string -> bool;
  isCategoryMuted : option string -> string -> bool;
  isChannelMuted : option string -> string -> bool
}.

(** ** shouldIgnore *)

Definition EPHEMERAL : Z := 64.

(** [ToInt32], applied by [&] to its operands. *)
Definition toInt32 (x : Z) : Z := (x + 2 ^ 31) mod 2 ^ 32 - 2 ^ 31.

Definition optTrue (b : option bool) : bool :=
  match b with Some true => true | _ => false end.

(** [ids.includes(e)] for [ids = [authorId, channelId, guildId]] and a
    string [e]: [undefined] equals no string. *)
Definition idsInclude (ids : list (option string)) (e : string) : bool :=
  existsb (fun i => match i with
                    | Some s => String.eqb s e
                    | None => false
                    end) ids.

(** [String.prototype.includes] converts its argument to a string, so
    [undefined] is searched for as the text "undefined". *)
Definition argString (o : option string) : string :=
  match o with Some s => s | None => "undefined" end.

Definition isWhitelisted (st : Settings) (a : ShouldIgnoreArguments) : bool :=
  existsb (idsInclude [Some (authorId a); Some (channelId a); guildId a])
          (JsString.split (whitelistedIds st)).

Definition isBlacklisted (st : Settings) (a : ShouldIgnoreArguments) : bool :=
  existsb (idsInclude [Some (authorId a); Some (channelId a); guildId a])
          (JsString.split (blacklistedIds st)).

Definition isAuthorWhitelisted (st : Settings) (a : ShouldIgnoreArguments) : bool :=
  JsString.includes (whitelistedIds st) (authorId a).

Definition isChannelWhitelisted (st : Settings) (a : ShouldIgnoreArguments) : bool :=
  JsString.includes (whitelistedIds st) (channelId a).

Definition isGuildWhitelisted (st : Settings) (a : ShouldIgnoreArguments) : bool :=
  JsString.includes (whitelistedIds st) (argString (guildId a)).

Definition isAuthorBlacklisted (st : Settings) (a : ShouldIgnoreArguments) : bool :=
  JsString.includes (blacklistedIds st) (authorId a).

Definition isChannelBlacklisted (st : Settings) (a : ShouldIgnoreArguments) : bool :=
  JsString.includes (blacklistedIds st) (channelId a).

(** [blacklistedWords.split(',').map(w => w.trim().toLowerCase())
      .filter(w => w.length > 0)]. *)
Definition blackListedWords (st : Settings) : list string :=
  List.filter JsString.truthy
    (List.map (fun w => JsString.toLowerCase (JsString.trim w))
              (JsString.split (blacklistedWords st))).

(** [content && blackListedWords.some(w =>
      content.trim().toLowerCase().includes(w))]. *)
Definition contentHasBlacklistedWord (st : Settings) (a : ShouldIgnoreArguments) : bool :=
  match content a with
  | None => false
  | Some c =>
      JsString.truthy c &&
      existsb (JsString.includes (JsString.toLowerCase (JsString.trim c)))
              (blackListedWords st)
  end.

Definition isEphemeral (a : ShouldIgnoreArguments) : bool :=
  Z.eqb (Z.land (toInt32 (flags a)) EPHEMERAL) EPHEMERAL.

Definition shouldIgnore (env : Env) (st : Settings) (a : ShouldIgnoreArguments) : bool :=
  if isEphemeral a then true
  else if contentHasBlacklistedWord st a then true
  else if ignoreSelf st && String.eqb (authorId a) (myId env) then true
  else if alwaysLogDirectMessages st && isDM env (channelId a) then false
  else if ignoreBots st && bot a && negb (isAuthorWhitelisted st a) then true
  else if optTrue (ghostPinged a) then false
  else if isAuthorWhitelisted st a || isChannelWhitelisted st a
          || isWhitelisted st a || alwaysLogCurrentChannel st then false
  else if isAuthorBlacklisted st a || isChannelBlacklisted st a
          || isBlacklisted st a then true
  else if optTrue (isCachedByUs a) && negb (cacheMessagesFromServers st)
          && bool_decide (is_Some (guildId a)) && negb (isGuildWhitelisted st a) then true
  else if match guildId a with
          | Some g => ignoreMutedGuilds st && isMuted env g
          | None => false
          end then true
  else if ignoreMutedCategories st && isCategoryMuted env (guildId a) (channelId a) then true
  else if ignoreMutedChannels st && isChannelMuted env (guildId a) (channelId a) then true
  else false.

(** ** List maintenance *)

(** [type ListType = "blacklistedIds" | "whitelistedIds"]; the
    constructors carry a [T] because the settings fields bear the plain
    names. *)
Inductive ListType := blacklistedIdsT | whitelistedIdsT.

(** [settings.store[list]] as a getter and a setter. *)
Definition getList (lst : ListType) (st : Settings) : string :=
  match lst with
  | blacklistedIdsT => blacklistedIds st
  | whitelistedIdsT => whitelistedIds st
  end.

Definition setList (lst : ListType) (v : string) (st : Settings) : Settings :=
  match lst with
  | blacklistedIdsT =>
      mkSettings (whitelistedIds st) v (blacklistedWords st)
        (alwaysLogDirectMessages st) (alwaysLogCurrentChannel st) (ignoreBots st)
        (ignoreSelf st) (ignoreMutedGuilds st) (ignoreMutedCategories st)
        (ignoreMutedChannels st) (cacheMessagesFromServers st)
  | whitelistedIdsT =>
      mkSettings v (blacklistedIds st) (blacklistedWords st)
        (alwaysLogDirectMessages st) (alwaysLogCurrentChannel st) (ignoreBots st)
        (ignoreSelf st) (ignoreMutedGuilds st) (ignoreMutedCategories st)
        (ignoreMutedChannels st) (cacheMessagesFromServers st)
  end.

(** [settings.store[list] ? settings.store[list].split(",") : []]. *)
Definition listItems (lst : ListType) (st : Settings) : list string :=
  if JsString.truthy (getList lst st) then JsString.split (getList lst st) else [].

Definition addToX (lst : ListType) (x : string) (st : Settings) : Settings :=
  setList lst (JsString.join (listItems lst st ++ [x])) st.

Definition removeFromX (lst : ListType) (x : string) (st : Settings) : Settings :=
  let items := listItems lst st in
  let items' := match JsString.indexOf items x with
                | Some index => JsString.splice1 index items
                | None => items
                end in
  setList lst (JsString.join items') st.

Definition oppositeListType (lst : ListType) : ListType :=
  match lst with
  | blacklistedIdsT => whitelistedIdsT
  | whitelistedIdsT => blacklistedIdsT
  end.

Definition addToXAndRemoveFromOpposite (lst : ListType) (x : string) (st : Settings) : Settings :=
  addToX lst x (removeFromX (oppositeListType lst) x st).

(** ** JavaScript numbers, as far as the reconciler needs them *)

Module JsNumber.

(** The numbers the reconciler computes are [NaN], the infinities and
    doubles that are multiples of [2^-22]: [Fin m] is the double
    [m / 4194304]. *)
Inductive number := NaN | NegInf | Fin (m : Z) | PosInf.

(** Round to nearest, ties to even, to a multiple of [2^e]
    (for [0 <= n]). *)
Definition roundEven (e n : Z) : Z :=
  let q := n / 2 ^ e in
  let r := n mod 2 ^ e in
  if 2 * r <? 2 ^ e then q * 2 ^ e
  else if 2 ^ e <? 2 * r then (q + 1) * 2 ^ e
  else if Z.even q then q * 2 ^ e else (q + 1) * 2 ^ e.

(** The integer with at most 53 significant bits nearest to [n]: the
    binary64 rounding of an integer, while no overflow occurs. *)
Definition round53 (n : Z) : Z :=
  let a := Z.abs n in
  Z.sgn n * roundEven (Z.max 0 (Z.log2 a - 52)) a.

Definition digitValue (c : ascii) : option Z :=
  let n := Z.of_N (N_of_ascii c) in
  if (48 <=? n) && (n <=? 57) then Some (n - 48)
  else if (97 <=? n) && (n <=? 122) then Some (n - 87)
  else if (65 <=? n) && (n <=? 90) then Some (n - 55)
  else None.

(** The longest prefix of digits of the radix, read as an integer;
    [acc] is [None] until a digit has been read. *)
Fixpoint parseDigits (radix : Z) (s : string) (acc : option Z) : option Z :=
  match s with
  | EmptyString => acc
  | String c s' =>
      match digitValue c with
      | Some d =>
          if d <? radix
          then parseDigits radix s' (Some (radix * default 0 acc + d))
          else acc
      | None => acc
      end
  end.

(** [parseInt(s)] before the conversion to a double: leading white
    space, an optional sign, an optional [0x] prefix, then digits.
    [None] is [NaN]. (Beyond 20 significant decimal digits an engine may
    read the further digits as zeros; ids have at most 20.) *)
Definition parseInt (s : string) : option Z :=
  let s0 := JsString.trimStart s in
  let '(neg, s1) := match s0 with
                    | String "-" r => (true, r)
                    | String "+" r => (false, r)
                    | _ => (false, s0)
                    end in
  let '(radix, s2) := match s1 with
                      | String "0" (String "x" r) => (16, r)
                      | String "0" (String "X" r) => (16, r)
                      | _ => (10, s1)
                      end in
  option_map (fun m => if neg : bool then - m else m) (parseDigits radix s2 None).

(** [a > b] and [a < b]; false as soon as one side is [NaN]. *)
Definition compare (a b : number) : option comparison :=
  match a, b with
  | NaN, _ | _, NaN => None
  | NegInf, NegInf | PosInf, PosInf => Some Eq
  | NegInf, _ | _, PosInf => Some Lt
  | _, NegInf | PosInf, _ => Some Gt
  | Fin x, Fin y => Some (x ?= y)
  end.

Definition gt (a b : number) : bool :=
  match compare a b with Some Gt => true | _ => false end.

Definition lt (a b : number) : bool :=
  match compare a b with Some Lt => true | _ => false end.

(** The sign of [a - b] as a sort comparator sees it: a [NaN]
    difference counts as [0]. *)
Definition subSign (a b : number) : comparison :=
  match compare a b with Some c => c | None => Eq end.

End JsNumber.

Import JsNumber.

(** ** Array primitives *)

Section Arrays.
Context {A : Type}.

(** [arr.sort(cmp)] for a comparator that is consistent on the
    elements: the stable sort. [x] is placed before the first element
    it does not exceed. When [NaN] makes the comparator inconsistent
    the order is implementation-defined; this is one such order. *)
Fixpoint insertBy (cmp : A -> A -> comparison) (x : A) (l : list A) : list A :=
  match l with
  | [] => [x]
  | y :: l' => match cmp x y with
               | Gt => y :: insertBy cmp x l'
               | _ => x :: l
               end
  end.

Definition sortBy (cmp : A -> A -> comparison) (l : list A) : list A :=
  foldr (insertBy cmp) [] l.

(** [arr.findIndex(p)]: the first index that satisfies [p], or [-1]. *)
Fixpoint findIndex (p : A -> bool) (l : list A) : Z :=
  match l with
  | [] => -1
  | x :: l' => if p x then 0
               else let r := findIndex p l' in
                    if r =? -1 then -1 else r + 1
  end.

(** Modelled from the spec: [findLastIndex] of [./misc] is not among
    the sources. The specification describes its use as "the last
    deleted record whose time is strictly less than ..." with the
    search failing when there is "no qualifying index", which the
    caller tests as [-1]. *)
Fixpoint findLastIndex (l : list A) (p : A -> bool) : Z :=
  match l with
  | [] => -1
  | x :: l' => let r := findLastIndex l' p in
               if r =? -1 then (if p x then 0 else -1) else r + 1
  end.

(** [arr.slice(start, end)] for [0 <= start] and [0 <= end]. *)
Definition slice (start stop : Z) (l : list A) : list A :=
  take (Z.to_nat (stop - start)) (drop (Z.to_nat start) l).

(** [arr.splice(i, 0, x)]: insert [x] at index [i], at the end when
    [i] exceeds the length. *)
Definition splice (i : nat) (x : A) (l : list A) : list A :=
  take i l ++ x :: drop i l.

End Arrays.

(** ** The reconciler *)

(** Modelled from the spec: the declaration of [LoggedMessageJSON] is
    not among the sources. A message is identified by its [id], the only
    field the reconciler reads; the rest of the body is kept as one
    field. *)
Record LoggedMessageJSON := mkMessage {
  msg_id : string;
  msg_content : string
}.

(** An entry of [loggedMessages]: [{ message?: LoggedMessage }]. *)
Record LoggedRecord := mkRecord {
  message : option LoggedMessageJSON
}.

(** [interface Id]. *)
Record Id := mkId {
  id : string;
  time : number
}.

Definition DISCORD_EPOCH : Z := 1420070400000.

(** [parseInt(id) / 4194304 + DISCORD_EPOCH] in double arithmetic:
    [parseInt] rounds the integer to a double, the division by [2^22]
    is exact, and the sum is rounded once more. *)
Definition timeOfInt (n : Z) : number :=
  let q := round53 n in
  if 2 ^ 1024 <=? q then PosInf
  else if q <=? - 2 ^ 1024 then NegInf
  else Fin (round53 (q + DISCORD_EPOCH * 4194304)).

Definition snowflakeTime (k : string) : number :=
  match parseInt k with
  | None => NaN
  | Some n => timeOfInt n
  end.

(** The same expression in the binary64 arithmetic of the standard
    library, to compare [timeOfInt] with. *)
Definition b64 (m e : Z) : spec_float := binary_normalize 53 1024 m e false.

Definition time64 (n : Z) : spec_float :=
  SFadd 53 1024 (SFdiv 53 1024 (b64 n 0) (b64 4194304 0)) (b64 DISCORD_EPOCH 0).

Definition toB64 (x : number) : spec_float :=
  match x with
  | NaN => S754_nan
  | NegInf => S754_infinity true
  | Fin m => b64 m (-22)
  | PosInf => S754_infinity false
  end.

(** The time as the specification words it:
    [floor(id / 4194304) + 1420070400000]. *)
Definition floorTime (n : Z) : Z := n / 4194304 + 1420070400000.

(** The double with the integer value [t]. *)
Definition ofInteger (t : Z) : number := Fin (t * 4194304).

Definition ascending (a b : Id) : comparison := subSign (time a) (time b).
Definition descending (a b : Id) : comparison := subSign (time b) (time a).

(** The first loop: one [Id] per live message. *)
Definition liveIDs (messages : list LoggedMessageJSON) : list Id :=
  List.map (fun m => mkId (msg_id m) (snowflakeTime (msg_id m))) messages.

(** The second loop: one [Id] per deleted id that has a record. *)
Fixpoint collectSaved (loggedMessages : gmap string LoggedRecord)
    (deletedMessages : list string) : list Id :=
  match deletedMessages with
  | [] => []
  | k :: rest =>
      match loggedMessages !! k with
      | None => collectSaved loggedMessages rest
      | Some _ => mkId k (snowflakeTime k) :: collectSaved loggedMessages rest
      end
  end.

Definition savedIDs (loggedMessages : gmap string LoggedRecord)
    (deletedMessages : list string) : list Id :=
  sortBy ascending (collectSaved loggedMessages deletedMessages).

Definition lowestIDX (channelEnd : bool) (saved : list Id) (lowestTime : number) : Z :=
  if channelEnd then 0
  else findIndex (fun e => gt (time e) lowestTime) saved.

Definition highestIDX (channelStart : bool) (saved : list Id) (highestTime : number) : Z :=
  if channelStart then Z.of_nat (length saved) - 1
  else findLastIndex saved (fun e => lt (time e) highestTime).

Definition hasId (k : string) (messages : list LoggedMessageJSON) : bool :=
  existsb (fun e => String.eqb (msg_id e) k) messages.

(** The last loop, from index [i] on. [None] is the [TypeError] of
    reading [.message] of a missing record. *)
Fixpoint spliceLoop (loggedMessages : gmap string LoggedRecord) (i : nat)
    (reAddIDs : list Id) (messages : list LoggedMessageJSON)
    : option (list LoggedMessageJSON) :=
  match reAddIDs with
  | [] => Some messages
  | e :: rest =>
      if hasId (id e) messages then spliceLoop loggedMessages (S i) rest messages
      else match loggedMessages !! id e with
           | None => None
           | Some record =>
               match message record with
               | None => spliceLoop loggedMessages (S i) rest messages
               | Some m => spliceLoop loggedMessages (S i) rest (splice i m messages)
               end
           end
  end.

(** [reAddDeletedMessages]: the array [messages] is mutated in place, so
    the function returns its final contents; [None] is a thrown
    [TypeError]. [deletedMessages] may be [undefined]. *)
Definition reAddDeletedMessages (loggedMessages : gmap string LoggedRecord)
    (messages : list LoggedMessageJSON) (deletedMessages : option (list string))
    (channelStart channelEnd : bool) : option (list LoggedMessageJSON) :=
  match messages, deletedMessages with
  | [], _ | _, None | _, Some [] => Some messages
  | _, Some deleted =>
      let IDs := liveIDs messages in
      let saved := savedIDs loggedMessages deleted in
      match saved with
      | [] => Some messages
      | _ =>
          match last IDs, head IDs with
          | Some lowest, Some highest =>
              let lo := lowestIDX channelEnd saved (time lowest) in
              if lo =? -1 then Some messages
              else
                let hi := highestIDX channelStart saved (time highest) in
                if hi =? -1 then Some messages
                else
                  let reAddIDs :=
                    sortBy descending (slice lo (hi + 1) saved ++ IDs) in
                  spliceLoop loggedMessages 0 reAddIDs messages
          | _, _ => None
          end
      end
  end.

(** ** Predicates of the statements and sample data *)

(** [sub] occurs in [s] as a contiguous substring. *)
Definition isSubstring (sub s : string) : Prop :=
  exists pre post, s = pre +:+ sub +:+ post.

(** Some id of the context is an element of the comma-separated list. *)
Definition someIdIn (a : ShouldIgnoreArguments) (l : list string) : Prop :=
  In (authorId a) l \/ In (channelId a) l \/
  exists g, guildId a = Some g /\ In g l.

(** A host with current user 100 in which channel 7 is the only DM and
    nothing is muted. *)
Definition env1 : Env :=
  mkEnv "100" (fun c => String.eqb c "7") (fun _ => false)
        (fun _ _ => false) (fun _ _ => false).

(** The entries of a list as [shouldIgnore] reads them. *)
Definition entries (lst : ListType) (st : Settings) : list string :=
  JsString.split (getList lst st).

(** The string has no comma. *)
Fixpoint commaFree (s : string) : bool :=
  match s with
  | EmptyString => true
  | String c s' => negb (Ascii.eqb c JsString.comma) && commaFree s'
  end.

(** The guarantee claimed for the combined operation: [x] is an entry of
    the named list and not an entry of both lists. *)
Definition exclusiveIn (lst : ListType) (x : string) (st : Settings) : Prop :=
  In x (entries lst st) /\
  ~ (In x (entries whitelistedIdsT st) /\ In x (entries blacklistedIdsT st)).

(** Settings with the two id lists given and every toggle off. *)
Definition settingsWith (wl bl : string) : Settings :=
  mkSettings wl bl "" false false false false false false false false.

(** The store is keyed by message id: a cached body carries the id it is
    filed under ([{ [message_id: string]: { message?: LoggedMessage } }]). *)
Definition keyedById (loggedMessages : gmap string LoggedRecord) : Prop :=
  forall k record m,
    loggedMessages !! k = Some record -> message record = Some m -> msg_id m = k.

(** The ids of the messages, in order. *)
Definition messageIds (messages : list LoggedMessageJSON) : list string :=
  List.map msg_id messages.

(** The derived times of the messages, in order. *)
Definition messageTimes (messages : list LoggedMessageJSON) : list number :=
  List.map (fun m => snowflakeTime (msg_id m)) messages.

(** Sample data: three snowflakes created 300, 250 and 200 ms after the
    epoch, one created 1 ms after it, and a store that has cached the
    second and the fourth and knows a fifth id without its body. *)
Definition msg300 : LoggedMessageJSON := mkMessage "1258291200" "newest".
Definition msg250 : LoggedMessageJSON := mkMessage "1048576000" "deleted".
Definition msg200 : LoggedMessageJSON := mkMessage "838860800" "oldest".
Definition msg1 : LoggedMessageJSON := mkMessage "4194304" "too old".

Definition sampleStore : gmap string LoggedRecord :=
  <["1048576000" := mkRecord (Some msg250)]>
    (<["838860800" := mkRecord (Some msg200)]>
       (<["4194304" := mkRecord (Some msg1)]>
          (<["943718400" := mkRecord None]> ∅))).

(** The time without the floor, times 4194304:
    [n / 4194304 + 1420070400000] is [unflooredTime n / 4194304]. *)
Definition unflooredTime (n : Z) : Z := n + 1420070400000 * 4194304.

(** A reproducible sample of 64-bit numbers (a linear congruential
    sequence), to compare the arithmetic with binary64 on. *)
Fixpoint sampleIds (count : nat) (x : Z) : list Z :=
  match count with
  | O => []
  | S c => x :: sampleIds c ((x * 6364136223846793005 + 1442695040888963407) mod 2 ^ 64)
  end.



(** ** Further predicates and sample data *)

(** The context with [isCachedByUs] replaced. *)
Definition withCached (a : ShouldIgnoreArguments) (c : option bool) : ShouldIgnoreArguments :=
  mkArgs (channelId a) (authorId a) (guildId a) (flags a) (bot a)
         (ghostPinged a) c (content a).

(** The disjunction [shouldIgnore] tests before it consults the
    blacklist. *)
Definition keptByWhitelist (st : Settings) (a : ShouldIgnoreArguments) : bool :=
  isAuthorWhitelisted st a || isChannelWhitelisted st a
  || isWhitelisted st a || alwaysLogCurrentChannel st.

(** The time of the first entry is not greater than that of the second. *)
Definition notLater (a b : Id) : Prop := JsNumber.gt (time a) (time b) = false.

(** The time of the entry is a number: its id is a numeral. *)
Definition numericTime (e : Id) : Prop := time e <> NaN.

(** How the merged sequence of entries relates to the live messages that
    are still to come ([tail]) and to the messages the last loop leaves
    from this point on ([merged]): an entry is either the next live
    message or a deleted entry whose cached body, filed under its id, is
    put in its place. *)
Inductive Woven (loggedMessages : gmap string LoggedRecord) :
    list Id -> list LoggedMessageJSON -> list LoggedMessageJSON -> Prop :=
| woven_nil : Woven loggedMessages [] [] []
| woven_live (m : LoggedMessageJSON) (rest : list Id)
    (tail merged : list LoggedMessageJSON) :
    Woven loggedMessages rest tail merged ->
    Woven loggedMessages (mkId (msg_id m) (snowflakeTime (msg_id m)) :: rest)
          (m :: tail) (m :: merged)
| woven_new (e : Id) (record : LoggedRecord) (b : LoggedMessageJSON) (rest : list Id)
    (tail merged : list LoggedMessageJSON) :
    loggedMessages !! id e = Some record ->
    message record = Some b ->
    msg_id b = id e ->
    time e = snowflakeTime (id e) ->
    Woven loggedMessages rest tail merged ->
    Woven loggedMessages (e :: rest) tail (b :: merged).

(** The list is newest first: no entry is followed by a later one. *)
Definition newestFirst (l : list Id) : Prop :=
  Sorted (fun a b => descending a b <> Gt) l.

(** The list is in descending order of time: all times are numbers and
    no entry is later than an entry before it. *)
Definition descendingTimes (l : list Id) : Prop :=
  List.Forall numericTime l /\ StronglySorted (fun a b => notLater b a) l.

(** * Properties *)

(** ** Bits and strings *)

Lemma toInt32_mod (x : Z) : toInt32 x mod 2 ^ 32 = x mod 2 ^ 32.
Proof.
  unfold toInt32.
  rewrite Zminus_mod_idemp_l.
  f_equal. lia.
Qed.

Lemma toInt32_testbit (x k : Z) : 0 <= k < 32 -> Z.testbit (toInt32 x) k = Z.testbit x k.
Proof.
  intros Hk.
  rewrite <- (Z.mod_pow2_bits_low (toInt32 x) 32 k) by lia.
  rewrite toInt32_mod.
  apply Z.mod_pow2_bits_low; lia.
Qed.

Lemma land_64 (y : Z) : Z.land y 64 = if Z.testbit y 6 then 64 else 0.
Proof.
  apply Z.bits_inj'. intros k Hk.
  rewrite Z.land_spec.
  change 64 with (2 ^ 6) at 1.
  rewrite Z.pow2_bits_eqb by lia.
  destruct (Z.eqb_spec 6 k) as [<- | Hne].
  - rewrite andb_true_r. destruct (Z.testbit y 6); reflexivity.
  - rewrite andb_false_r.
    destruct (Z.testbit y 6).
    + change 64 with (2 ^ 6). rewrite Z.pow2_bits_eqb by lia.
      symmetry. apply Z.eqb_neq. exact Hne.
    + symmetry. apply Z.bits_0.
Qed.

(** The ephemeral test reads bit 6 of the flags. *)
Lemma isEphemeral_testbit (a : ShouldIgnoreArguments) :
  isEphemeral a = Z.testbit (flags a) 6.
Proof.
  unfold isEphemeral, EPHEMERAL.
  rewrite land_64, toInt32_testbit by lia.
  destruct (Z.testbit (flags a) 6); reflexivity.
Qed.

Lemma split_nonempty (s : string) : JsString.split s <> [].
Proof.
  destruct s as [| c s]; simpl; [discriminate |].
  destruct (Ascii.eqb c JsString.comma); [discriminate |].
  destruct (JsString.split s); discriminate.
Qed.

Lemma prefix_cons (c : ascii) (s t : string) :
  String.prefix (String c s) (String c t) = String.prefix s t.
Proof. simpl. destruct (ascii_dec c c); [reflexivity | congruence]. Qed.

Lemma prefix_empty (s : string) : String.prefix EmptyString s = true.
Proof. destruct s; reflexivity. Qed.

(** The first field of a split is a prefix of the string. *)
Lemma split_head_prefix (s : string) (h : string) (t : list string) :
  JsString.split s = h :: t -> String.prefix h s = true.
Proof.
  revert h t. induction s as [| c s IH]; intros h t; simpl.
  - intros [= <- <-]. reflexivity.
  - destruct (Ascii.eqb c JsString.comma).
    + intros [= <- <-]. reflexivity.
    + destruct (JsString.split s) as [| h' t'] eqn:E.
      * intros [= <- <-]. change (String.prefix (String c EmptyString) (String c s) = true).
        rewrite prefix_cons. apply prefix_empty.
      * intros [= <- <-]. change (String.prefix (String c h') (String c s) = true).
        rewrite prefix_cons. eapply IH. reflexivity.
Qed.

Lemma prefix_spec (p s : string) :
  String.prefix p s = true <-> exists post, s = p +:+ post.
Proof.
  revert s. induction p as [| a p IH]; intros s.
  - rewrite prefix_empty. split; [| reflexivity]. intros _. exists s. reflexivity.
  - destruct s as [| b s]; simpl.
    + split; [discriminate | intros [post H]; discriminate].
    + destruct (ascii_dec a b) as [<- | Hne].
      * rewrite IH. split; intros [post H]; exists post.
        -- rewrite H. reflexivity.
        -- injection H as H. exact H.
      * split; [discriminate |]. intros [post H]. injection H as H _. congruence.
Qed.

(** [includes] is substring containment. *)
Lemma includes_spec (s sub : string) :
  JsString.includes s sub = true <-> isSubstring sub s.
Proof.
  unfold isSubstring. induction s as [| c s IH].
  - cbn [JsString.includes]. rewrite orb_false_r, prefix_spec. split.
    + intros [post H]. exists EmptyString, post. exact H.
    + intros [pre [post H]]. destruct pre; [| discriminate].
      exists post. exact H.
  - cbn [JsString.includes]. rewrite orb_true_iff, prefix_spec, IH. split.
    + intros [[post H] | [pre [post H]]].
      * exists EmptyString, post. exact H.
      * exists (String c pre), post. rewrite H. reflexivity.
    + intros [pre [post H]]. destruct pre as [| c' pre].
      * left. exists post. exact H.
      * right. injection H as _ H. exists pre, post. exact H.
Qed.

(** An element of the split list occurs in the raw string. *)
Lemma split_In_includes (s x : string) :
  In x (JsString.split s) -> JsString.includes s x = true.
Proof.
  induction s as [| c s IH]; simpl.
  - intros [<- | []]. reflexivity.
  - destruct (Ascii.eqb c JsString.comma).
    + intros [<- | Hin].
      * reflexivity.
      * rewrite (IH Hin). apply orb_true_r.
    + destruct (JsString.split s) as [| h t] eqn:E.
      * intros [<- | []].
        destruct (ascii_dec c c); [| congruence].
        rewrite prefix_empty. reflexivity.
      * intros [<- | Hin].
        -- destruct (ascii_dec c c); [| congruence].
           rewrite (split_head_prefix s h t E). reflexivity.
        -- rewrite IH by (right; exact Hin). apply orb_true_r.
Qed.

Lemma idsInclude_complete (ids : list (option string)) (e : string) :
  In (Some e) ids -> idsInclude ids e = true.
Proof.
  intros Hin. unfold idsInclude. apply existsb_exists.
  exists (Some e). split; [exact Hin | apply String.eqb_refl].
Qed.

Lemma isWhitelisted_complete (st : Settings) (a : ShouldIgnoreArguments) :
  someIdIn a (JsString.split (whitelistedIds st)) -> isWhitelisted st a = true.
Proof.
  intros H. unfold isWhitelisted. apply existsb_exists.
  destruct H as [H | [H | [g [Hg H]]]].
  - exists (authorId a). split; [exact H |].
    apply idsInclude_complete. left. reflexivity.
  - exists (channelId a). split; [exact H |].
    apply idsInclude_complete. right. left. reflexivity.
  - exists g. split; [exact H |].
    apply idsInclude_complete. right. right. left. exact Hg.
Qed.

(** ** The retention policy *)

(** C2. A context whose flags have bit 64 (bit number 6) set is ignored,
    whatever the whitelist, the blacklist and the toggles are: the
    ephemeral test is the first rule. *)
Theorem ephemeral_always_ignored (env : Env) (st : Settings) (a : ShouldIgnoreArguments) :
  Z.testbit (flags a) 6 = true -> shouldIgnore env st a = true.
Proof.
  intros Hbit. unfold shouldIgnore.
  rewrite isEphemeral_testbit, Hbit. reflexivity.
Qed.

Lemma ephemeral_always_ignored_witness :
  shouldIgnore env1
    (mkSettings "23,1,9" "" "" true true false false false false false true)
    (mkArgs "1" "23" (Some "9") 64 false (Some true) None None) = true.
Proof. apply ephemeral_always_ignored. reflexivity. Defined.

(** C1. When some id among author, channel and guild is an element of
    the whitelist and none of the rules that ignore before the whitelist
    test fires (ephemeral, blacklisted word, self, bot), the message is
    kept whatever the blacklist contains. The two keeping rules in
    between (direct message, ghost ping) return the same answer, so they
    need not be excluded. *)
Theorem whitelist_overrides_blacklist (env : Env) (st : Settings) (a : ShouldIgnoreArguments) :
  Z.testbit (flags a) 6 = false ->
  contentHasBlacklistedWord st a = false ->
  ignoreSelf st && String.eqb (authorId a) (myId env) = false ->
  ignoreBots st && bot a && negb (isAuthorWhitelisted st a) = false ->
  someIdIn a (JsString.split (whitelistedIds st)) ->
  shouldIgnore env st a = false.
Proof.
  intros Hbit Hword Hself Hbot Hin. unfold shouldIgnore.
  rewrite isEphemeral_testbit, Hbit, Hword, Hself, Hbot.
  rewrite (isWhitelisted_complete st a Hin).
  rewrite !orb_true_r.
  destruct (alwaysLogDirectMessages st && isDM env (channelId a));
    destruct (optTrue (ghostPinged a)); reflexivity.
Qed.

Lemma whitelist_overrides_blacklist_witness :
  shouldIgnore env1
    (mkSettings "55,23" "23,1,9" "spam" false false true true true true true false)
    (mkArgs "1" "23" (Some "9") 0 true None (Some true) (Some "hello")) = false.
Proof.
  apply whitelist_overrides_blacklist; try reflexivity.
  left. simpl. right. left. reflexivity.
Defined.

(** C3. With [ignoreSelf] set, a message of the current user that is not
    ephemeral and has no blacklisted word is ignored, whatever the
    whitelist contains. *)
Theorem self_precedes_whitelist (env : Env) (st : Settings) (a : ShouldIgnoreArguments) :
  ignoreSelf st = true ->
  authorId a = myId env ->
  Z.testbit (flags a) 6 = false ->
  contentHasBlacklistedWord st a = false ->
  shouldIgnore env st a = true.
Proof.
  intros Hself Hme Hbit Hword. unfold shouldIgnore.
  rewrite isEphemeral_testbit, Hbit, Hword, Hself, Hme, String.eqb_refl.
  reflexivity.
Qed.

Lemma self_precedes_whitelist_witness :
  shouldIgnore env1
    (mkSettings "100,1,9" "" "spam" true true false true false false false true)
    (mkArgs "1" "100" (Some "9") 0 false None None (Some "hello")) = true.
Proof. apply self_precedes_whitelist; reflexivity. Defined.

(** C4. With [alwaysLogDirectMessages] set and a direct-message channel,
    only the three rules before the DM rule can ignore the message:
    ephemeral, blacklisted word and self. Bot, ghost ping, whitelist,
    blacklist, cached-by-us and the muted rules are short-circuited; a
    DM with a blacklisted word is still ignored. *)
Theorem dm_override (env : Env) (st : Settings) (a : ShouldIgnoreArguments) :
  alwaysLogDirectMessages st = true ->
  isDM env (channelId a) = true ->
  shouldIgnore env st a =
    Z.testbit (flags a) 6 || contentHasBlacklistedWord st a
    || (ignoreSelf st && String.eqb (authorId a) (myId env)).
Proof.
  intros Hdm Hch. unfold shouldIgnore.
  rewrite isEphemeral_testbit, Hdm, Hch.
  destruct (Z.testbit (flags a) 6); [reflexivity |].
  destruct (contentHasBlacklistedWord st a); [reflexivity |].
  destruct (ignoreSelf st && String.eqb (authorId a) (myId env)); reflexivity.
Qed.

Lemma dm_override_witness :
  shouldIgnore env1
    (mkSettings "" "23,7" "spam" true false true true true true true false)
    (mkArgs "7" "23" None 0 true None (Some true) (Some "hello")) = false
  /\ shouldIgnore env1
    (mkSettings "" "" " Spam ,x" true false true true true true true false)
    (mkArgs "7" "23" None 0 false None None (Some "no SPAM please")) = true.
Proof.
  split.
  - rewrite dm_override; reflexivity.
  - rewrite dm_override; reflexivity.
Defined.

(** The bot rule ignores a bot whose id does not occur in the raw
    whitelist string. *)
Lemma bot_rule_fires (env : Env) (st : Settings) (a : ShouldIgnoreArguments) :
  Z.testbit (flags a) 6 = false ->
  contentHasBlacklistedWord st a = false ->
  ignoreSelf st && String.eqb (authorId a) (myId env) = false ->
  alwaysLogDirectMessages st && isDM env (channelId a) = false ->
  ignoreBots st = true -> bot a = true ->
  isAuthorWhitelisted st a = false ->
  shouldIgnore env st a = true.
Proof.
  intros Hbit Hword Hself Hdm Hib Hb Hw. unfold shouldIgnore.
  rewrite isEphemeral_testbit, Hbit, Hword, Hself, Hdm, Hib, Hb, Hw.
  reflexivity.
Qed.

(** C10. Each of the five per-entity tests holds exactly when the id
    occurs as a contiguous substring of the raw comma-joined string; the
    string is not split. So there is a whitelist with an entry that
    properly contains the author id: the author is no element of the
    list, no id of the context is, and yet the author counts as
    whitelisted and, being a bot under [ignoreBots], is kept; with an
    empty whitelist the same message is ignored. *)
Theorem substring_whitelisting :
  (forall st a,
      (isAuthorWhitelisted st a = true <-> isSubstring (authorId a) (whitelistedIds st))
      /\ (isChannelWhitelisted st a = true <-> isSubstring (channelId a) (whitelistedIds st))
      /\ (isGuildWhitelisted st a = true
          <-> isSubstring (argString (guildId a)) (whitelistedIds st))
      /\ (isAuthorBlacklisted st a = true <-> isSubstring (authorId a) (blacklistedIds st))
      /\ (isChannelBlacklisted st a = true
          <-> isSubstring (channelId a) (blacklistedIds st)))
  /\ exists env wl a entry,
      let st := mkSettings wl "" "" false false true false false false false false in
      bot a = true /\ ignoreBots st = true
      /\ In entry (JsString.split wl)
      /\ JsString.includes entry (authorId a) = true /\ entry <> authorId a
      /\ ~ In (authorId a) (JsString.split wl)
      /\ isWhitelisted st a = false
      /\ isAuthorWhitelisted st a = true
      /\ shouldIgnore env st a = false
      /\ shouldIgnore env
           (mkSettings "" "" "" false false true false false false false false) a = true.
Proof.
  split.
  - intros st a. repeat apply conj; apply includes_spec.
  - exists env1, "1234,77", (mkArgs "1" "23" (Some "9") 0 true None None (Some "hello")), "1234".
    simpl. repeat split; try reflexivity.
    + left. reflexivity.
    + discriminate.
    + intros [H | [H | []]]; discriminate.
Qed.

(** ** List maintenance *)

Lemma getList_setList_same (lst : ListType) (v : string) (st : Settings) :
  getList lst (setList lst v st) = v.
Proof. destruct lst; reflexivity. Qed.

Lemma getList_setList_opposite (lst : ListType) (v : string) (st : Settings) :
  getList (oppositeListType lst) (setList lst v st) = getList (oppositeListType lst) st.
Proof. destruct lst; reflexivity. Qed.

Lemma getList_setList_other (lst : ListType) (v : string) (st : Settings) :
  getList lst (setList (oppositeListType lst) v st) = getList lst st.
Proof. destruct lst; reflexivity. Qed.

Lemma split_commaFree (s : string) : Forall (fun e => commaFree e = true) (JsString.split s).
Proof.
  induction s as [| c s IH]; simpl.
  - repeat constructor.
  - destruct (Ascii.eqb c JsString.comma) eqn:Ec.
    + constructor; [reflexivity | exact IH].
    + destruct (JsString.split s) as [| h t].
      * repeat constructor. simpl. rewrite Ec. reflexivity.
      * inversion IH as [| ? ? Hh Ht]; subst.
        constructor; [| exact Ht]. simpl. rewrite Ec, Hh. reflexivity.
Qed.

Lemma split_single (x : string) : commaFree x = true -> JsString.split x = [x].
Proof.
  induction x as [| c x IH]; simpl; [reflexivity |].
  intros [Hc Hx]%andb_prop.
  apply negb_true_iff in Hc. rewrite Hc, (IH Hx). reflexivity.
Qed.

Lemma split_app_comma (x t : string) :
  commaFree x = true ->
  JsString.split (x +:+ String JsString.comma t) = x :: JsString.split t.
Proof.
  induction x as [| c x IH]; simpl.
  - reflexivity.
  - intros [Hc Hx]%andb_prop.
    apply negb_true_iff in Hc. rewrite Hc, (IH Hx). reflexivity.
Qed.

(** [split] undoes [join] on a non-empty list of comma-free fields. *)
Lemma split_join (items : list string) :
  items <> [] -> Forall (fun e => commaFree e = true) items ->
  JsString.split (JsString.join items) = items.
Proof.
  induction items as [| x rest IH]; [congruence |].
  intros _ Hall. inversion Hall as [| ? ? Hx Hrest]; subst.
  destruct rest as [| y rest].
  - simpl. apply split_single. exact Hx.
  - change (JsString.join (x :: y :: rest))
      with (x +:+ String JsString.comma (JsString.join (y :: rest))).
    rewrite split_app_comma by exact Hx.
    rewrite IH; [reflexivity | discriminate | exact Hrest].
Qed.

Lemma listItems_commaFree (lst : ListType) (st : Settings) :
  Forall (fun e => commaFree e = true) (listItems lst st).
Proof.
  unfold listItems. destruct (JsString.truthy (getList lst st)).
  - apply split_commaFree.
  - constructor.
Qed.

Lemma truthy_false (s : string) : JsString.truthy s = false -> s = EmptyString.
Proof.
  unfold JsString.truthy. intros H. apply negb_false_iff in H.
  apply String.eqb_eq. exact H.
Qed.

(** Away from the empty id, [listItems] and [entries] hold the same
    occurrences. *)
Lemma count_listItems (lst : ListType) (x : string) (st : Settings) :
  x <> EmptyString ->
  count_occ string_dec (listItems lst st) x = count_occ string_dec (entries lst st) x.
Proof.
  intros Hx. unfold listItems, entries.
  destruct (JsString.truthy (getList lst st)) eqn:E; [reflexivity |].
  rewrite (truthy_false _ E).
  change (JsString.split EmptyString) with [EmptyString].
  rewrite count_occ_cons_neq by congruence. reflexivity.
Qed.

(** [indexOf] followed by [splice] removes the first occurrence, hence
    every occurrence when there is at most one. *)
Lemma remove_first_occurrence (items : list string) (x : string) :
  (count_occ string_dec items x <= 1)%nat ->
  ~ In x (match JsString.indexOf items x with
          | Some index => JsString.splice1 index items
          | None => items
          end).
Proof.
  induction items as [| y rest IH]; simpl; [tauto |].
  destruct (String.eqb_spec y x) as [-> | Hne].
  - destruct (string_dec x x); [| congruence].
    intros Hc. unfold JsString.splice1. simpl. rewrite drop_0.
    apply (count_occ_not_In string_dec). lia.
  - destruct (string_dec y x); [congruence |].
    intros Hc. specialize (IH Hc).
    destruct (JsString.indexOf rest x) as [i |]; simpl.
    + unfold JsString.splice1 in *. simpl. intros [? | ?]; [congruence | tauto].
    + intros [? | ?]; [congruence | tauto].
Qed.

Lemma splice1_commaFree (items : list string) (i : nat) :
  Forall (fun e => commaFree e = true) items ->
  Forall (fun e => commaFree e = true) (JsString.splice1 i items).
Proof.
  intros H. unfold JsString.splice1. apply Forall_app. split.
  - apply Forall_take. exact H.
  - apply Forall_drop. exact H.
Qed.

(** After [removeFromX], an id that occurred at most once is no entry of
    the list any more. *)
Lemma removeFromX_removes (lst : ListType) (x : string) (st : Settings) :
  x <> EmptyString ->
  (count_occ string_dec (entries lst st) x <= 1)%nat ->
  ~ In x (entries lst (removeFromX lst x st)).
Proof.
  intros Hx Hc. unfold removeFromX, entries.
  rewrite getList_setList_same.
  rewrite <- count_listItems in Hc by exact Hx.
  pose proof (remove_first_occurrence _ _ Hc) as Hrm.
  pose proof (listItems_commaFree lst st) as Hcf.
  set (items' := match JsString.indexOf (listItems lst st) x with
                 | Some index => JsString.splice1 index (listItems lst st)
                 | None => listItems lst st
                 end) in *.
  assert (Hcf' : Forall (fun e => commaFree e = true) items').
  { subst items'. destruct (JsString.indexOf (listItems lst st) x).
    - apply splice1_commaFree. exact Hcf.
    - exact Hcf. }
  destruct items' as [| y rest] eqn:E.
  - simpl. intros [H | []]. congruence.
  - rewrite split_join; [exact Hrm | discriminate | exact Hcf'].
Qed.

(** After [addToX], a comma-free id is an entry of the list. *)
Lemma addToX_adds (lst : ListType) (x : string) (st : Settings) :
  commaFree x = true -> In x (entries lst (addToX lst x st)).
Proof.
  intros Hx. unfold addToX, entries.
  rewrite getList_setList_same.
  rewrite split_join.
  - apply in_or_app. right. left. reflexivity.
  - destruct (listItems lst st); discriminate.
  - apply Forall_app. split.
    + apply listItems_commaFree.
    + repeat constructor. exact Hx.
Qed.

Lemma not_both (lst : ListType) (x : string) (st : Settings) :
  ~ In x (entries (oppositeListType lst) st) ->
  ~ (In x (entries whitelistedIdsT st) /\ In x (entries blacklistedIdsT st)).
Proof. destruct lst; simpl; tauto. Qed.

(** C6, as amended. For a non-empty id without a comma that occurs at
    most once among the entries of the opposite list,
    [addToXAndRemoveFromOpposite] leaves the id an entry of the named
    list and of that list only. *)
Theorem addToXAndRemoveFromOpposite_exclusive (lst : ListType) (x : string) (st : Settings) :
  x <> EmptyString ->
  commaFree x = true ->
  (count_occ string_dec (entries (oppositeListType lst) st) x <= 1)%nat ->
  exclusiveIn lst x (addToXAndRemoveFromOpposite lst x st).
Proof.
  intros Hne Hcf Hc. unfold addToXAndRemoveFromOpposite. split.
  - apply addToX_adds. exact Hcf.
  - apply (not_both lst).
    unfold addToX, entries. rewrite getList_setList_opposite.
    apply (removeFromX_removes (oppositeListType lst) x st Hne Hc).
Qed.

Lemma addToXAndRemoveFromOpposite_exclusive_witness :
  exclusiveIn whitelistedIdsT "5"
    (addToXAndRemoveFromOpposite whitelistedIdsT "5" (settingsWith "7,8" "4,5,6")).
Proof.
  apply addToXAndRemoveFromOpposite_exclusive.
  - discriminate.
  - reflexivity.
  - vm_compute. lia.
Defined.

(** C6 as stated fails when the opposite list holds the id twice: only
    the first occurrence is removed and the id ends up in both lists.
    Three calls of the operation itself, from empty lists, reach it. *)
Lemma addToXAndRemoveFromOpposite_duplicate :
  let st2 := addToXAndRemoveFromOpposite blacklistedIdsT "5"
               (addToXAndRemoveFromOpposite blacklistedIdsT "5" (settingsWith "" "")) in
  let st3 := addToXAndRemoveFromOpposite whitelistedIdsT "5" st2 in
  blacklistedIds st2 = "5,5" /\
  whitelistedIds st3 = "5" /\ blacklistedIds st3 = "5" /\
  ~ exclusiveIn whitelistedIdsT "5" st3.
Proof.
  repeat split.
  intros [_ Hboth]. apply Hboth. split; left; reflexivity.
Qed.

(** ** The snowflake transform *)

(** [timeOfInt] against binary64 on sample ids: small ones, ties,
    boundary cases of both roundings, 64-bit snowflakes, negative and
    overflowing numerals. *)
Example timeOfInt_binary64 :
  forallb (fun n => SFeqb (time64 n) (toB64 (timeOfInt n)))
    [0; 1; 300; 2097152; 4194303; 4194304; 2 ^ 53; 2 ^ 53 + 1; 2 ^ 53 + 3;
     2 ^ 54 - 1; 175928847299117063; 1000000000000300000;
     1234567890123456789; 2 ^ 63 - 1; 2 ^ 64 - 1; 2 ^ 64;
     999999999999999999999; 2 ^ 70 + 2 ^ 17; 2 ^ 70 + 3 * 2 ^ 17; -5;
     (300 - 1420070400000) * 4194304; -5956206959001598977;
     2 ^ 1023; 2 ^ 1024 - 2 ^ 970 - 1; 2 ^ 1024 - 2 ^ 970; 2 ^ 1024;
     - 2 ^ 1024] = true.
Proof. vm_compute. reflexivity. Qed.

Lemma pow2_divide (e k : Z) : 0 <= e <= k -> (2 ^ e | 2 ^ k).
Proof.
  intros H. exists (2 ^ (k - e)).
  rewrite <- Z.pow_add_r by lia. f_equal. lia.
Qed.

(** Rounding to a multiple of [2^e] never crosses a multiple of [2^e]. *)
Lemma roundEven_between (e n a b : Z) :
  0 <= e -> (2 ^ e | a) -> (2 ^ e | b) -> a <= n <= b ->
  a <= roundEven e n <= b.
Proof.
  intros He [a' ->] [b' ->] [Ha Hb].
  assert (HP : 0 < 2 ^ e) by (apply Z.pow_pos_nonneg; lia).
  unfold roundEven.
  pose proof (Z.div_mod n (2 ^ e) ltac:(lia)) as Hdm.
  pose proof (Z.mod_pos_bound n (2 ^ e) HP) as Hr.
  set (P := 2 ^ e) in *. set (q := n / P) in *. set (r := n mod P) in *.
  assert (Hlo : a' <= q) by nia.
  assert (Hhi : 0 < r -> q + 1 <= b') by nia.
  destruct (2 * r <? P) eqn:E1; [nia |].
  apply Z.ltb_ge in E1.
  assert (0 < r) by lia. specialize (Hhi ltac:(lia)).
  destruct (P <? 2 * r); [nia |].
  destruct (Z.even q); nia.
Qed.








(** On a tie [roundEven] picks the even multiple. *)
Lemma roundEven_tie (e n : Z) :
  0 <= e -> 0 <= n -> 2 * (n mod 2 ^ e) = 2 ^ e ->
  exists j, roundEven e n = j * 2 ^ e /\ Z.even j = true.
Proof.
  intros He Hn Htie. unfold roundEven.
  rewrite Htie, Z.ltb_irrefl.
  destruct (Z.even (n / 2 ^ e)) eqn:E.
  - exists (n / 2 ^ e). split; [reflexivity | exact E].
  - exists (n / 2 ^ e + 1). split; [reflexivity |].
    rewrite Z.even_add, E. reflexivity.
Qed.





(** ** The reconciler *)

Lemma insertBy_perm {A : Type} (cmp : A -> A -> comparison) (x : A) (l : list A) :
  Permutation (insertBy cmp x l) (x :: l).
Proof.
  induction l as [| y l IH]; simpl; [reflexivity |].
  destruct (cmp x y); try reflexivity.
  rewrite IH. apply perm_swap.
Qed.

(** Sorting rearranges; nothing is lost or added. *)
Lemma sortBy_perm {A : Type} (cmp : A -> A -> comparison) (l : list A) :
  Permutation (sortBy cmp l) l.
Proof.
  induction l as [| x l IH]; simpl; [reflexivity |].
  rewrite insertBy_perm, IH. reflexivity.
Qed.

(** For a comparator that never puts two elements each after the other,
    the result is in order: no element exceeds its successor. *)
Lemma insertBy_sorted {A : Type} (cmp : A -> A -> comparison) (x : A) (l : list A) :
  (forall a b, cmp a b = Gt -> cmp b a <> Gt) ->
  Sorted (fun a b => cmp a b <> Gt) l ->
  Sorted (fun a b => cmp a b <> Gt) (insertBy cmp x l).
Proof.
  intros Hanti. induction l as [| y l IH]; intros Hs; simpl.
  - repeat constructor.
  - inversion Hs as [| ? ? Hl Hhd]; subst.
    destruct (cmp x y) eqn:E.
    + constructor; [exact Hs | constructor; congruence].
    + constructor; [exact Hs | constructor; congruence].
    + constructor; [exact (IH Hl) |].
      destruct l as [| z l']; simpl.
      * constructor. apply Hanti. exact E.
      * destruct (cmp x z); constructor;
          solve [apply Hanti; exact E | inversion Hhd; assumption].
Qed.

Lemma sortBy_sorted {A : Type} (cmp : A -> A -> comparison) (l : list A) :
  (forall a b, cmp a b = Gt -> cmp b a <> Gt) ->
  Sorted (fun a b => cmp a b <> Gt) (sortBy cmp l).
Proof.
  intros Hanti. induction l as [| x l IH]; simpl.
  - constructor.
  - apply insertBy_sorted; assumption.
Qed.

Lemma subSign_antisym (a b : number) : subSign a b = Gt -> subSign b a <> Gt.
Proof.
  unfold subSign.
  destruct a as [| | x |], b as [| | y |]; simpl; try discriminate.
  intros H. apply Z.compare_gt_iff in H.
  rewrite (proj2 (Z.compare_lt_iff y x)) by lia. discriminate.
Qed.

(** The deleted entries are in ascending order of time. *)
Lemma savedIDs_sorted (loggedMessages : gmap string LoggedRecord) (deleted : list string) :
  Sorted (fun a b => ascending a b <> Gt) (savedIDs loggedMessages deleted).
Proof.
  apply sortBy_sorted. intros a b. apply subSign_antisym.
Qed.

Lemma collectSaved_nil (loggedMessages : gmap string LoggedRecord) (deleted : list string) :
  (forall k, In k deleted -> loggedMessages !! k = None) ->
  collectSaved loggedMessages deleted = [].
Proof.
  induction deleted as [| k rest IH]; intros H; simpl; [reflexivity |].
  rewrite (H k) by (left; reflexivity).
  apply IH. intros k' Hk'. apply H. right. exact Hk'.
Qed.

Lemma collectSaved_lookup (loggedMessages : gmap string LoggedRecord)
    (deleted : list string) (e : Id) :
  In e (collectSaved loggedMessages deleted) -> is_Some (loggedMessages !! id e).
Proof.
  induction deleted as [| k rest IH]; simpl; [tauto |].
  destruct (loggedMessages !! k) as [r |] eqn:E; [| exact IH].
  intros [<- | Hin]; [| exact (IH Hin)].
  simpl. rewrite E. eexists. reflexivity.
Qed.

Lemma hasId_In (k : string) (messages : list LoggedMessageJSON) :
  hasId k messages = true <-> In k (messageIds messages).
Proof.
  unfold hasId, messageIds. rewrite existsb_exists, in_map_iff.
  split.
  - intros [m [Hm He]]. exists m. apply String.eqb_eq in He. tauto.
  - intros [m [He Hm]]. exists m. split; [exact Hm |].
    apply String.eqb_eq. exact He.
Qed.

Lemma liveIDs_hasId (messages : list LoggedMessageJSON) (e : Id) :
  In e (liveIDs messages) -> hasId (id e) messages = true.
Proof.
  unfold liveIDs. rewrite in_map_iff. intros [m [<- Hm]]. simpl.
  apply hasId_In. unfold messageIds. apply in_map. exact Hm.
Qed.

Lemma slice_In {A : Type} (start stop : Z) (l : list A) (x : A) :
  In x (slice start stop l) -> In x l.
Proof.
  unfold slice. intros H.
  rewrite <- (firstn_skipn (Z.to_nat start) l). apply in_or_app. right.
  rewrite <- (firstn_skipn (Z.to_nat (stop - start)) (drop (Z.to_nat start) l)).
  apply in_or_app. left. exact H.
Qed.

Lemma splice_perm {A : Type} (i : nat) (x : A) (l : list A) :
  Permutation (splice i x l) (x :: l).
Proof.
  unfold splice. rewrite <- Permutation_middle.
  rewrite firstn_skipn. reflexivity.
Qed.

Lemma messageIds_splice (i : nat) (m : LoggedMessageJSON) (messages : list LoggedMessageJSON) :
  Permutation (messageIds (splice i m messages)) (msg_id m :: messageIds messages).
Proof.
  unfold messageIds.
  change (msg_id m :: List.map msg_id messages) with (List.map msg_id (m :: messages)).
  apply Permutation_map. apply splice_perm.
Qed.

(** Every entry the last loop walks over is either still a live message
    or has a record, and stays so while the loop inserts. *)
Definition resolvable (loggedMessages : gmap string LoggedRecord)
    (messages : list LoggedMessageJSON) (e : Id) : Prop :=
  hasId (id e) messages = true \/ is_Some (loggedMessages !! id e).

Lemma resolvable_splice (loggedMessages : gmap string LoggedRecord)
    (messages : list LoggedMessageJSON) (i : nat) (m : LoggedMessageJSON) (e : Id) :
  resolvable loggedMessages messages e ->
  resolvable loggedMessages (splice i m messages) e.
Proof.
  intros [H | H]; [left | right; exact H].
  apply hasId_In. apply hasId_In in H.
  apply (Permutation_in _ (Permutation_sym (messageIds_splice i m messages))).
  right. exact H.
Qed.

(** The last loop never reads a missing record, and it keeps the ids of
    the messages free of repetitions when the store is keyed by id. *)
Lemma spliceLoop_NoDup (loggedMessages : gmap string LoggedRecord) (reAddIDs : list Id) :
  keyedById loggedMessages ->
  forall (i : nat) (messages : list LoggedMessageJSON),
    Forall (resolvable loggedMessages messages) reAddIDs ->
    List.NoDup (messageIds messages) ->
    exists result,
      spliceLoop loggedMessages i reAddIDs messages = Some result
      /\ List.NoDup (messageIds result).
Proof.
  intros Hkey.
  induction reAddIDs as [| e rest IH]; intros i messages Hres Hnd; simpl.
  - exists messages. split; [reflexivity | exact Hnd].
  - inversion Hres as [| ? ? He Hrest]; subst.
    destruct (hasId (id e) messages) eqn:Ehas.
    + apply IH; assumption.
    + destruct He as [He | [record Hrec]]; [congruence |].
      rewrite Hrec.
      destruct (message record) as [m |] eqn:Em.
      * apply IH.
        -- eapply Forall_impl; [exact Hrest |].
           intros e'. apply resolvable_splice.
        -- apply (Permutation_NoDup (Permutation_sym (messageIds_splice i m messages))).
           constructor; [| exact Hnd].
           rewrite (Hkey _ _ _ Hrec Em).
           intros Hin. apply hasId_In in Hin. congruence.
      * apply IH; assumption.
Qed.

Lemma reAddIDs_resolvable (loggedMessages : gmap string LoggedRecord)
    (messages : list LoggedMessageJSON) (deleted : list string) (lo hi : Z) :
  Forall (resolvable loggedMessages messages)
    (sortBy descending
       (slice lo hi (savedIDs loggedMessages deleted) ++ liveIDs messages)).
Proof.
  apply List.Forall_forall. intros e He.
  apply (Permutation_in _ (sortBy_perm _ _)) in He.
  apply in_app_or in He. destruct He as [He | He].
  - right. apply slice_In in He. unfold savedIDs in He.
    apply (Permutation_in _ (sortBy_perm _ _)) in He.
    eapply collectSaved_lookup. exact He.
  - left. apply liveIDs_hasId. exact He.
Qed.

(** The last loop always finds the record it reads. *)
Lemma spliceLoop_returns (loggedMessages : gmap string LoggedRecord) (reAddIDs : list Id) :
  forall (i : nat) (messages : list LoggedMessageJSON),
    Forall (resolvable loggedMessages messages) reAddIDs ->
    is_Some (spliceLoop loggedMessages i reAddIDs messages).
Proof.
  induction reAddIDs as [| e rest IH]; intros i messages Hres; simpl.
  - eexists. reflexivity.
  - inversion Hres as [| ? ? He Hrest]; subst.
    destruct (hasId (id e) messages) eqn:Ehas; [apply IH; exact Hrest |].
    destruct He as [He | [record Hrec]]; [congruence |].
    rewrite Hrec.
    destruct (message record) as [m |]; [| apply IH; exact Hrest].
    apply IH. eapply Forall_impl; [exact Hrest |].
    intros e'. apply resolvable_splice.
Qed.

(** [reAddDeletedMessages] returns on every input: no [TypeError] is
    thrown. *)
Lemma reAddDeletedMessages_returns (loggedMessages : gmap string LoggedRecord)
    (messages : list LoggedMessageJSON) (deletedMessages : option (list string))
    (channelStart channelEnd : bool) :
  is_Some (reAddDeletedMessages loggedMessages messages deletedMessages
             channelStart channelEnd).
Proof.
  unfold reAddDeletedMessages.
  destruct messages as [| m0 rest]; [eexists; reflexivity |].
  destruct deletedMessages as [[| d0 drest] |]; try (eexists; reflexivity).
  destruct (savedIDs loggedMessages (d0 :: drest)) as [| s0 srest] eqn:Esaved;
    [eexists; reflexivity |].
  rewrite <- Esaved. cbn [liveIDs List.map last head].
  destruct (last _) as [lowest |] eqn:Elast.
  2: { apply last_None in Elast. discriminate. }
  destruct (lowestIDX channelEnd _ _ =? -1); [eexists; reflexivity |].
  destruct (highestIDX channelStart _ _ =? -1); [eexists; reflexivity |].
  apply spliceLoop_returns. apply (reAddIDs_resolvable _ (m0 :: rest)).
Qed.

(** C8. With a store keyed by message id, every call returns, and if no
    id occurred twice among the live messages before the call, none does
    after it: an entry whose id is already present is skipped. *)
Theorem reAddDeletedMessages_no_duplicate (loggedMessages : gmap string LoggedRecord)
    (messages : list LoggedMessageJSON) (deletedMessages : option (list string))
    (channelStart channelEnd : bool) :
  keyedById loggedMessages ->
  List.NoDup (messageIds messages) ->
  exists result,
    reAddDeletedMessages loggedMessages messages deletedMessages channelStart channelEnd
      = Some result
    /\ List.NoDup (messageIds result).
Proof.
  intros Hkey Hnd. unfold reAddDeletedMessages.
  destruct messages as [| m0 rest]; [exists []; split; [reflexivity | constructor] |].
  set (messages := m0 :: rest) in *.
  destruct deletedMessages as [[| d0 drest] |];
    try (exists messages; split; [reflexivity | exact Hnd]).
  set (deleted := d0 :: drest).
  destruct (savedIDs loggedMessages deleted) as [| s0 srest] eqn:Esaved;
    [exists messages; split; [reflexivity | exact Hnd] |].
  rewrite <- Esaved.
  destruct (last (liveIDs messages)) as [lowest |] eqn:Elast.
  2: { apply last_None in Elast. discriminate. }
  destruct (head (liveIDs messages)) as [highest |] eqn:Ehead; [| discriminate].
  destruct (lowestIDX channelEnd _ _ =? -1);
    [exists messages; split; [reflexivity | exact Hnd] |].
  destruct (highestIDX channelStart _ _ =? -1);
    [exists messages; split; [reflexivity | exact Hnd] |].
  apply spliceLoop_NoDup; [exact Hkey | apply reAddIDs_resolvable | exact Hnd].
Qed.

(** C9. Every early return leaves the live messages as they were: an
    empty live list, a missing or empty list of deleted ids, no deleted
    id with a record, or a bound search without a qualifying index. *)
Theorem reAddDeletedMessages_early_return (loggedMessages : gmap string LoggedRecord)
    (messages : list LoggedMessageJSON) (deletedMessages : option (list string))
    (channelStart channelEnd : bool) :
  messages = []
  \/ deletedMessages = None
  \/ deletedMessages = Some []
  \/ (exists deleted, deletedMessages = Some deleted
        /\ forall k, In k deleted -> loggedMessages !! k = None)
  \/ (exists deleted lowest highest,
        deletedMessages = Some deleted
        /\ last (liveIDs messages) = Some lowest
        /\ head (liveIDs messages) = Some highest
        /\ (lowestIDX channelEnd (savedIDs loggedMessages deleted) (time lowest) = -1
            \/ highestIDX channelStart (savedIDs loggedMessages deleted) (time highest) = -1)) ->
  reAddDeletedMessages loggedMessages messages deletedMessages channelStart channelEnd
    = Some messages.
Proof.
  intros H. unfold reAddDeletedMessages.
  destruct messages as [| m0 rest]; [reflexivity |].
  destruct H as [H | [-> | [-> | [(deleted & -> & Hnone) | H]]]];
    try discriminate; try reflexivity.
  - destruct deleted as [| d0 drest]; [reflexivity |].
    unfold savedIDs. rewrite (collectSaved_nil _ _ Hnone). reflexivity.
  - destruct H as (deleted & lowest & highest & -> & Hlast & Hhead & Hidx).
    destruct deleted as [| d0 drest]; [reflexivity |].
    destruct (savedIDs loggedMessages (d0 :: drest)) as [| s0 srest] eqn:Esaved;
      [reflexivity |].
    rewrite Hlast, Hhead.
    destruct (Z.eqb_spec (lowestIDX channelEnd (s0 :: srest) (time lowest)) (-1))
      as [_ | Hlo]; [reflexivity |].
    destruct Hidx as [Hidx | Hidx]; [congruence |].
    rewrite Hidx. reflexivity.
Qed.

(** One deleted message whose time lies strictly between the times of
    two live messages is spliced between them. *)
Lemma reAdd_between (loggedMessages : gmap string LoggedRecord)
    (hi lo body : LoggedMessageJSON) (d : string) (th tl td : Z) :
  snowflakeTime (msg_id hi) = Fin th ->
  snowflakeTime (msg_id lo) = Fin tl ->
  snowflakeTime d = Fin td ->
  tl < td < th ->
  loggedMessages !! d = Some (mkRecord (Some body)) ->
  reAddDeletedMessages loggedMessages [hi; lo] (Some [d]) false false
    = Some [hi; body; lo].
Proof.
  intros Hhi Hlo Hd [Hl Hh] Hrec.
  assert (Hne1 : String.eqb (msg_id hi) d = false).
  { apply String.eqb_neq. intros E. rewrite E, Hd in Hhi. injection Hhi. lia. }
  assert (Hne2 : String.eqb (msg_id lo) d = false).
  { apply String.eqb_neq. intros E. rewrite E, Hd in Hlo. injection Hlo. lia. }
  unfold reAddDeletedMessages, savedIDs, liveIDs.
  cbn [collectSaved List.map]. rewrite Hrec, Hhi, Hlo, Hd.
  cbn [sortBy foldr insertBy last head time lowestIDX highestIDX findIndex findLastIndex].
  assert (Hgt : gt (Fin td) (Fin tl) = true).
  { unfold gt. cbn [compare]. apply Z.compare_gt_iff in Hl. rewrite Hl. reflexivity. }
  assert (Hlt : lt (Fin td) (Fin th) = true).
  { unfold lt. cbn [compare]. rewrite (proj2 (Z.compare_lt_iff _ _) Hh). reflexivity. }
  rewrite Hgt, Hlt.
  change (slice 0 (0 + 1) [mkId d (Fin td)]) with [mkId d (Fin td)].
  assert (Hs : sortBy descending
                 ([mkId d (Fin td)] ++ [mkId (msg_id hi) (Fin th); mkId (msg_id lo) (Fin tl)])
               = [mkId (msg_id hi) (Fin th); mkId d (Fin td); mkId (msg_id lo) (Fin tl)]).
  { unfold sortBy, descending, subSign.
    cbn [foldr app insertBy time compare].
    rewrite (proj2 (Z.compare_lt_iff tl th)) by lia.
    cbn [insertBy time compare].
    rewrite (proj2 (Z.compare_gt_iff th td)) by lia.
    cbn [insertBy time compare].
    rewrite (proj2 (Z.compare_lt_iff tl td)) by lia.
    reflexivity. }
  change ((if 0 =? -1 then Some [hi; lo] else
           if 0 =? -1 then Some [hi; lo] else
           spliceLoop loggedMessages 0
             (sortBy descending
                ([mkId d (Fin td)] ++ [mkId (msg_id hi) (Fin th); mkId (msg_id lo) (Fin tl)]))
             [hi; lo]) = Some [hi; body; lo]).
  rewrite Hs.
  cbn [Z.eqb spliceLoop hasId existsb id].
  rewrite String.eqb_refl. cbn [orb].
  rewrite Hne1, Hne2. cbn [orb]. rewrite Hrec.
  cbn [message splice take drop app hasId existsb].
  rewrite String.eqb_refl, !orb_true_r. reflexivity.
Qed.

(** C7. Live messages, newest first, with derived times 300 and 200 and
    one deleted id with a cached body and derived time 250, neither end
    of the channel reached: the cached message is spliced between the
    two, and the times read 300, 250, 200. The times are taken relative
    to any origin [t0]: [t0 = 0] is the scenario literally, and
    [t0 = DISCORD_EPOCH] is what snowflakes stamped 300, 250 and 200
    give. *)
Theorem reAddDeletedMessages_ordering (loggedMessages : gmap string LoggedRecord)
    (hi lo body : LoggedMessageJSON) (d : string) (t0 : Z) :
  snowflakeTime (msg_id hi) = ofInteger (t0 + 300) ->
  snowflakeTime (msg_id lo) = ofInteger (t0 + 200) ->
  snowflakeTime d = ofInteger (t0 + 250) ->
  loggedMessages !! d = Some (mkRecord (Some body)) ->
  msg_id body = d ->
  exists result,
    reAddDeletedMessages loggedMessages [hi; lo] (Some [d]) false false = Some result
    /\ result = [hi; body; lo]
    /\ messageTimes result
       = [ofInteger (t0 + 300); ofInteger (t0 + 250); ofInteger (t0 + 200)].
Proof.
  intros Hhi Hlo Hd Hrec Hbody.
  exists [hi; body; lo]. split; [| split; [reflexivity |]].
  - apply (reAdd_between loggedMessages hi lo body d
             ((t0 + 300) * 4194304) ((t0 + 200) * 4194304) ((t0 + 250) * 4194304));
      try assumption.
    lia.
  - unfold messageTimes. cbn [List.map].
    rewrite Hbody, Hhi, Hlo, Hd. reflexivity.
Qed.

Lemma reAddDeletedMessages_ordering_witness :
  exists result,
    reAddDeletedMessages sampleStore [msg300; msg200] (Some ["1048576000"]) false false
      = Some result
    /\ result = [msg300; msg250; msg200]
    /\ messageTimes result
       = [ofInteger (DISCORD_EPOCH + 300); ofInteger (DISCORD_EPOCH + 250);
          ofInteger (DISCORD_EPOCH + 200)].
Proof.
  apply (reAddDeletedMessages_ordering sampleStore msg300 msg200 msg250
           "1048576000" DISCORD_EPOCH); reflexivity.
Defined.

(** The scenario with the times 300, 250 and 200 themselves: numerals
    below zero are the only ones with such times. *)
Example reAddDeletedMessages_ordering_literal :
  let hi := mkMessage "-5956206957743308800" "newest" in
  let lo := mkMessage "-5956206958162739200" "oldest" in
  let body := mkMessage "-5956206957953024000" "deleted" in
  let store : gmap string LoggedRecord := {[ msg_id body := mkRecord (Some body) ]} in
  messageTimes [hi; lo] = [ofInteger 300; ofInteger 200]
  /\ snowflakeTime (msg_id body) = ofInteger 250
  /\ reAddDeletedMessages store [hi; lo] (Some [msg_id body]) false false
     = Some [hi; body; lo].
Proof. vm_compute. repeat split. Qed.

(** The numerals 300, 250 and 200 themselves all have the time of the
    epoch: their quotients are below the resolution of a double near
    1.4e12, so nothing lies strictly between and nothing is spliced. *)
Example reAddDeletedMessages_small_ids :
  let hi := mkMessage "300" "newest" in
  let lo := mkMessage "200" "oldest" in
  let body := mkMessage "250" "deleted" in
  let store : gmap string LoggedRecord := {[ "250" := mkRecord (Some body) ]} in
  messageTimes [hi; body; lo]
    = [ofInteger DISCORD_EPOCH; ofInteger DISCORD_EPOCH; ofInteger DISCORD_EPOCH]
  /\ reAddDeletedMessages store [hi; lo] (Some ["250"]) false false = Some [hi; lo].
Proof. vm_compute. repeat split. Qed.

Lemma keyedById_empty : keyedById ∅.
Proof. intros k record m H. rewrite lookup_empty in H. discriminate. Qed.

Lemma keyedById_insert (loggedMessages : gmap string LoggedRecord) (k : string)
    (record : LoggedRecord) :
  keyedById loggedMessages ->
  (forall m, message record = Some m -> msg_id m = k) ->
  keyedById (<[k := record]> loggedMessages).
Proof.
  intros Hs Hr k' record' m Hlook Hm.
  destruct (decide (k = k')) as [<- | Hne].
  - rewrite lookup_insert_eq in Hlook. injection Hlook as <-. apply Hr. exact Hm.
  - rewrite lookup_insert_ne in Hlook by exact Hne. eapply Hs; eassumption.
Qed.

Lemma sampleStore_keyed : keyedById sampleStore.
Proof.
  unfold sampleStore.
  repeat (apply keyedById_insert; [| intros m [= <-]; reflexivity || discriminate]).
  apply keyedById_empty.
Qed.

Lemma reAddDeletedMessages_no_duplicate_witness :
  exists result,
    reAddDeletedMessages sampleStore [msg300; msg200]
      (Some ["838860800"; "1048576000"; "1048576000"]) false false = Some result
    /\ List.NoDup (messageIds result).
Proof.
  apply reAddDeletedMessages_no_duplicate.
  - exact sampleStore_keyed.
  - repeat constructor; simpl; intuition discriminate.
Defined.

(** What that call computes: the id that is live already and the second
    copy of the deleted id are skipped. *)
Example reAddDeletedMessages_skips_present :
  reAddDeletedMessages sampleStore [msg300; msg200]
    (Some ["838860800"; "1048576000"; "1048576000"]) false false
  = Some [msg300; msg250; msg200].
Proof. vm_compute. reflexivity. Qed.

Lemma reAddDeletedMessages_early_return_witness :
  reAddDeletedMessages sampleStore [] (Some ["1048576000"]) false false = Some []
  /\ reAddDeletedMessages sampleStore [msg300; msg200] None true true
     = Some [msg300; msg200]
  /\ reAddDeletedMessages sampleStore [msg300; msg200] (Some ["77"; "78"]) true true
     = Some [msg300; msg200]
  /\ reAddDeletedMessages sampleStore [msg300; msg200] (Some ["4194304"]) true false
     = Some [msg300; msg200]
  /\ reAddDeletedMessages sampleStore [msg250; msg200] (Some ["1048576000"]) false true
     = Some [msg250; msg200].
Proof.
  split; [| split; [| split; [| split]]].
  - apply reAddDeletedMessages_early_return. left. reflexivity.
  - apply reAddDeletedMessages_early_return. right. left. reflexivity.
  - apply reAddDeletedMessages_early_return. right. right. right. left.
    exists ["77"; "78"]. split; [reflexivity |].
    intros k [<- | [<- | []]]; reflexivity.
  - apply reAddDeletedMessages_early_return. right. right. right. right.
    exists ["4194304"], (mkId "838860800" (snowflakeTime "838860800")),
           (mkId "1258291200" (snowflakeTime "1258291200")).
    split; [reflexivity |]. split; [reflexivity |]. split; [reflexivity |].
    left. vm_compute. reflexivity.
  - apply reAddDeletedMessages_early_return. right. right. right. right.
    exists ["1048576000"], (mkId "838860800" (snowflakeTime "838860800")),
           (mkId "1048576000" (snowflakeTime "1048576000")).
    split; [reflexivity |]. split; [reflexivity |]. split; [reflexivity |].
    right. vm_compute. reflexivity.
Defined.

(** ** The derived time of the processed ids *)




(** The time of the snowflake 175928847299117063 is 1462015105796.03125:
    the quotient keeps its fraction, 7 / 4194304 away from the exact
    value. *)
Example derived_time_fraction :
  snowflakeTime "175928847299117063" = Fin (1462015105796 * 4194304 + 131072)
  /\ floorTime 175928847299117063 = 1462015105796
  /\ unflooredTime 175928847299117063 = 1462015105796 * 4194304 + 131079.
Proof. vm_compute. repeat split. Qed.

(** [timeOfInt] against binary64 on a pseudo-random sweep of 64-bit
    ids, of ids near [2^53], and of small ids. *)
Example timeOfInt_binary64_sweep :
  forallb (fun n => SFeqb (time64 n) (toB64 (timeOfInt n))) (sampleIds 4000 12345) = true
  /\ forallb (fun n => SFeqb (time64 n) (toB64 (timeOfInt n)))
       (List.map (fun x => x / 2 ^ 10) (sampleIds 2000 777)) = true
  /\ forallb (fun n => SFeqb (time64 n) (toB64 (timeOfInt n)))
       (List.map (fun x => x / 2 ^ 40) (sampleIds 2000 4242)) = true.
Proof. vm_compute. repeat split. Qed.


(** * Further properties of the retention policy *)

Lemma isBlacklisted_complete (st : Settings) (a : ShouldIgnoreArguments) :
  someIdIn a (JsString.split (blacklistedIds st)) -> isBlacklisted st a = true.
Proof.
  intros H. unfold isBlacklisted. apply existsb_exists.
  destruct H as [H | [H | [g [Hg H]]]].
  - exists (authorId a). split; [exact H |].
    apply idsInclude_complete. left. reflexivity.
  - exists (channelId a). split; [exact H |].
    apply idsInclude_complete. right. left. reflexivity.
  - exists g. split; [exact H |].
    apply idsInclude_complete. right. right. left. exact Hg.
Qed.

(** X2. A ghost ping is kept once the ephemeral, word, self and bot rules
    have passed: the blacklist, the cached-by-us rule and the muted rules
    are not consulted. *)
Theorem ghost_ping_kept (env : Env) (st : Settings) (a : ShouldIgnoreArguments) :
  ghostPinged a = Some true ->
  Z.testbit (flags a) 6 = false ->
  contentHasBlacklistedWord st a = false ->
  ignoreSelf st && String.eqb (authorId a) (myId env) = false ->
  ignoreBots st && bot a && negb (isAuthorWhitelisted st a) = false ->
  shouldIgnore env st a = false.
Proof.
  intros Hg Hbit Hword Hself Hbot. unfold shouldIgnore.
  rewrite isEphemeral_testbit, Hbit, Hword, Hself, Hbot, Hg.
  destruct (alwaysLogDirectMessages st && isDM env (channelId a)); reflexivity.
Qed.

Lemma ghost_ping_kept_witness :
  shouldIgnore
    (mkEnv "100" (fun _ => false) (fun _ => true) (fun _ _ => true) (fun _ _ => true))
    (mkSettings "" "23,1,9" "spam" false false true true true true true false)
    (mkArgs "1" "23" (Some "9") 0 false (Some true) (Some true) (Some "hello")) = false.
Proof. apply ghost_ping_kept; reflexivity. Defined.

(** X3. With [alwaysLogCurrentChannel] set, every message that passes the
    ephemeral, word, self and bot rules is kept, in whatever channel it
    was sent: the flag is not compared with any channel. *)
Theorem alwaysLogCurrentChannel_keeps_any_channel (env : Env) (st : Settings)
    (a : ShouldIgnoreArguments) :
  alwaysLogCurrentChannel st = true ->
  Z.testbit (flags a) 6 = false ->
  contentHasBlacklistedWord st a = false ->
  ignoreSelf st && String.eqb (authorId a) (myId env) = false ->
  ignoreBots st && bot a && negb (isAuthorWhitelisted st a) = false ->
  shouldIgnore env st a = false.
Proof.
  intros Hc Hbit Hword Hself Hbot. unfold shouldIgnore.
  rewrite isEphemeral_testbit, Hbit, Hword, Hself, Hbot, Hc, !orb_true_r.
  destruct (alwaysLogDirectMessages st && isDM env (channelId a));
    destruct (optTrue (ghostPinged a)); reflexivity.
Qed.

Lemma alwaysLogCurrentChannel_keeps_any_channel_witness :
  shouldIgnore
    (mkEnv "100" (fun _ => false) (fun _ => true) (fun _ _ => true) (fun _ _ => true))
    (mkSettings "" "23,1,9" "spam" false true true true true true true false)
    (mkArgs "1" "23" (Some "9") 0 false None (Some true) (Some "hello")) = false.
Proof. apply alwaysLogCurrentChannel_keeps_any_channel; reflexivity. Defined.

(** X4. When an id of the context is an entry of the blacklist, no
    whitelist test succeeds, and the message is neither a kept DM nor a
    ghost ping, it is ignored (the ephemeral, word and self rules having
    passed; the bot rule would ignore it too). *)
Theorem blacklisted_ignored (env : Env) (st : Settings) (a : ShouldIgnoreArguments) :
  someIdIn a (JsString.split (blacklistedIds st)) ->
  keptByWhitelist st a = false ->
  alwaysLogDirectMessages st && isDM env (channelId a) = false ->
  optTrue (ghostPinged a) = false ->
  shouldIgnore env st a = true.
Proof.
  intros Hin Hw Hdm Hg. unfold shouldIgnore.
  unfold keptByWhitelist in Hw. rewrite Hdm, Hg, Hw.
  rewrite (isBlacklisted_complete st a Hin), !orb_true_r.
  destruct (isEphemeral a); [reflexivity |].
  destruct (contentHasBlacklistedWord st a); [reflexivity |].
  destruct (ignoreSelf st && String.eqb (authorId a) (myId env)); [reflexivity |].
  destruct (ignoreBots st && bot a && negb (isAuthorWhitelisted st a)); reflexivity.
Qed.

Lemma blacklisted_ignored_witness :
  shouldIgnore env1
    (mkSettings "55" "8,9" "" true false false false false false false true)
    (mkArgs "1" "23" (Some "9") 0 false None None (Some "hello")) = true.
Proof.
  apply blacklisted_ignored; try reflexivity.
  right. right. exists "9". split; [reflexivity |]. right. left. reflexivity.
Defined.

(** X1. A bot under [ignoreBots] whose id does not occur in the raw
    whitelist string is ignored once the ephemeral, word, self and DM
    rules have passed: a whitelisted channel or guild, a ghost ping and
    [alwaysLogCurrentChannel] do not rescue it. *)
Theorem bot_not_rescued (env : Env) (st : Settings) (a : ShouldIgnoreArguments) :
  ignoreBots st = true -> bot a = true ->
  ~ isSubstring (authorId a) (whitelistedIds st) ->
  Z.testbit (flags a) 6 = false ->
  contentHasBlacklistedWord st a = false ->
  ignoreSelf st && String.eqb (authorId a) (myId env) = false ->
  alwaysLogDirectMessages st && isDM env (channelId a) = false ->
  shouldIgnore env st a = true.
Proof.
  intros Hib Hb Hsub Hbit Hword Hself Hdm.
  apply bot_rule_fires; try assumption.
  unfold isAuthorWhitelisted.
  destruct (JsString.includes (whitelistedIds st) (authorId a)) eqn:E; [| reflexivity].
  exfalso. apply Hsub. apply includes_spec. exact E.
Qed.

Lemma bot_not_rescued_witness :
  shouldIgnore env1
    (mkSettings "1,9" "" "" false true true false false false false true)
    (mkArgs "1" "23" (Some "9") 0 true (Some true) None (Some "hello")) = true.
Proof.
  apply bot_not_rescued; try reflexivity.
  intros Hsub. apply includes_spec in Hsub. discriminate.
Defined.

(** X22. The cached-by-us rule concerns guild messages only, and only
    while guild caching is off: for a message without guild, or with
    [cacheMessagesFromServers] on, the decision does not depend on
    [isCachedByUs]. *)
Theorem cached_rule_guild_only (env : Env) (st : Settings) (a : ShouldIgnoreArguments)
    (c : option bool) :
  guildId a = None \/ cacheMessagesFromServers st = true ->
  shouldIgnore env st (withCached a c) = shouldIgnore env st a.
Proof.
  intros H. unfold shouldIgnore.
  change (isEphemeral (withCached a c)) with (isEphemeral a).
  change (contentHasBlacklistedWord st (withCached a c))
    with (contentHasBlacklistedWord st a).
  change (isAuthorWhitelisted st (withCached a c)) with (isAuthorWhitelisted st a).
  change (isChannelWhitelisted st (withCached a c)) with (isChannelWhitelisted st a).
  change (isGuildWhitelisted st (withCached a c)) with (isGuildWhitelisted st a).
  change (isWhitelisted st (withCached a c)) with (isWhitelisted st a).
  change (isAuthorBlacklisted st (withCached a c)) with (isAuthorBlacklisted st a).
  change (isChannelBlacklisted st (withCached a c)) with (isChannelBlacklisted st a).
  change (isBlacklisted st (withCached a c)) with (isBlacklisted st a).
  cbn [withCached authorId channelId guildId bot ghostPinged isCachedByUs].
  assert (Hc : forall o, optTrue o && negb (cacheMessagesFromServers st)
                         && bool_decide (is_Some (guildId a))
                         && negb (isGuildWhitelisted st a)
                         = false).
  { intros o. destruct H as [H | H].
    - rewrite H. rewrite (bool_decide_eq_false_2 (is_Some None));
        [rewrite andb_false_r; reflexivity |].
      intros [x Hx]. discriminate.
    - rewrite H. cbn [negb]. rewrite andb_false_r. reflexivity. }
  rewrite (Hc c), (Hc (isCachedByUs a)). reflexivity.
Qed.

Lemma cached_rule_guild_only_witness :
  shouldIgnore env1
    (mkSettings "" "" "" false false false false false false false false)
    (withCached (mkArgs "7" "23" None 0 false None None (Some "hello")) (Some true))
  = shouldIgnore env1
    (mkSettings "" "" "" false false false false false false false false)
    (mkArgs "7" "23" None 0 false None None (Some "hello")).
Proof. apply cached_rule_guild_only. left. reflexivity. Defined.

(** ** The blacklisted words *)

Lemma toLowerCase_empty (s : string) :
  JsString.toLowerCase s = EmptyString <-> s = EmptyString.
Proof. destruct s; simpl; split; intros H; try reflexivity; discriminate. Qed.

Lemma filter_all_false {A : Type} (f : A -> bool) (l : list A) :
  (forall x, In x l -> f x = false) -> List.filter f l = [].
Proof.
  induction l as [| x l IH]; intros H; simpl; [reflexivity |].
  rewrite (H x) by (left; reflexivity).
  apply IH. intros y Hy. apply H. right. exact Hy.
Qed.

(** X6. A word list whose fields are all blank blacklists no word: empty
    fields are filtered out, so the empty string (which every content
    includes) never becomes a word. *)
Theorem blank_words_match_nothing (st : Settings) (a : ShouldIgnoreArguments) :
  (forall w, In w (JsString.split (blacklistedWords st)) -> JsString.trim w = EmptyString) ->
  contentHasBlacklistedWord st a = false.
Proof.
  intros H. unfold contentHasBlacklistedWord, blackListedWords.
  rewrite filter_all_false.
  - destruct (content a); [apply andb_false_r | reflexivity].
  - intros w Hw. apply in_map_iff in Hw. destruct Hw as [w0 [<- Hw0]].
    rewrite (H w0 Hw0). reflexivity.
Qed.

Lemma blank_words_match_nothing_witness :
  contentHasBlacklistedWord
    (mkSettings "" "" " ,, ," false false false false false false false false)
    (mkArgs "1" "23" None 0 false None None (Some "any content")) = false.
Proof.
  apply blank_words_match_nothing.
  intros w Hw. simpl in Hw.
  destruct Hw as [<- | [<- | [<- | [<- | []]]]]; reflexivity.
Defined.

(** X5. A message whose trimmed, lower-cased content contains a word of the
    list (trimmed and lower-cased, not blank) is ignored whatever else
    holds: no whitelist entry, DM setting or ghost ping keeps it. *)
Theorem blacklisted_word_ignored (env : Env) (st : Settings) (a : ShouldIgnoreArguments)
    (c w : string) :
  content a = Some c ->
  c <> EmptyString ->
  In w (JsString.split (blacklistedWords st)) ->
  JsString.trim w <> EmptyString ->
  isSubstring (JsString.toLowerCase (JsString.trim w))
              (JsString.toLowerCase (JsString.trim c)) ->
  shouldIgnore env st a = true.
Proof.
  intros Hc Hne Hw Hblank Hsub. unfold shouldIgnore.
  destruct (isEphemeral a); [reflexivity |].
  assert (Hword : contentHasBlacklistedWord st a = true).
  { unfold contentHasBlacklistedWord. rewrite Hc.
    apply andb_true_intro. split.
    - unfold JsString.truthy. apply negb_true_iff, String.eqb_neq. exact Hne.
    - apply existsb_exists. exists (JsString.toLowerCase (JsString.trim w)). split.
      + unfold blackListedWords. apply filter_In. split.
        * apply in_map_iff. exists w. split; [reflexivity | exact Hw].
        * unfold JsString.truthy. apply negb_true_iff, String.eqb_neq.
          intros E. apply Hblank. apply (proj1 (toLowerCase_empty _) E).
      + apply includes_spec. exact Hsub. }
  rewrite Hword. reflexivity.
Qed.

Lemma blacklisted_word_ignored_witness :
  shouldIgnore env1
    (mkSettings "23,7" "" "x,  Spam " true true false false false false false true)
    (mkArgs "7" "23" None 0 false (Some true) None (Some " no SPAM please ")) = true.
Proof.
  apply (blacklisted_word_ignored _ _ _ " no SPAM please " "  Spam ").
  - reflexivity.
  - discriminate.
  - right. left. reflexivity.
  - discriminate.
  - exists "no ", " please". reflexivity.
Defined.

(** * Further properties of the list maintenance *)

Lemma join_cons_char (c : ascii) (h : string) (t : list string) :
  JsString.join (String c h :: t) = String c (JsString.join (h :: t)).
Proof. destruct t; reflexivity. Qed.

(** [join] undoes [split] on every string. *)
Lemma join_split (s : string) : JsString.join (JsString.split s) = s.
Proof.
  induction s as [| c s IH]; [reflexivity |].
  cbn [JsString.split].
  destruct (Ascii.eqb_spec c JsString.comma) as [-> | Hne].
  - destruct (JsString.split s) as [| h t] eqn:E.
    + exfalso. exact (split_nonempty s E).
    + change (JsString.join (EmptyString :: h :: t))
        with (String JsString.comma (JsString.join (h :: t))).
      rewrite IH. reflexivity.
  - destruct (JsString.split s) as [| h t] eqn:E.
    + exfalso. exact (split_nonempty s E).
    + rewrite join_cons_char, IH. reflexivity.
Qed.

(** The items the operations work on, joined again, are the stored
    string. *)
Lemma join_listItems (lst : ListType) (st : Settings) :
  JsString.join (listItems lst st) = getList lst st.
Proof.
  unfold listItems. destruct (JsString.truthy (getList lst st)) eqn:E.
  - apply join_split.
  - rewrite (truthy_false _ E). reflexivity.
Qed.

Lemma setList_getList (lst : ListType) (st : Settings) :
  setList lst (getList lst st) st = st.
Proof. destruct lst, st; reflexivity. Qed.

Lemma setList_setList (lst : ListType) (v v' : string) (st : Settings) :
  setList lst v (setList lst v' st) = setList lst v st.
Proof. destruct lst; reflexivity. Qed.

Lemma indexOf_None (items : list string) (x : string) :
  ~ In x items -> JsString.indexOf items x = None.
Proof.
  induction items as [| y rest IH]; intros H; simpl; [reflexivity |].
  destruct (String.eqb_spec y x) as [-> | Hne].
  - exfalso. apply H. left. reflexivity.
  - rewrite IH; [reflexivity |]. intros Hin. apply H. right. exact Hin.
Qed.

Lemma indexOf_last (items : list string) (x : string) :
  ~ In x items -> JsString.indexOf (items ++ [x])%list x = Some (length items).
Proof.
  induction items as [| y rest IH]; intros H; simpl.
  - rewrite String.eqb_refl. reflexivity.
  - destruct (String.eqb_spec y x) as [-> | Hne].
    + exfalso. apply H. left. reflexivity.
    + rewrite IH; [reflexivity |]. intros Hin. apply H. right. exact Hin.
Qed.

Lemma splice1_last (items : list string) (x : string) :
  JsString.splice1 (length items) (items ++ [x])%list = items.
Proof.
  unfold JsString.splice1.
  rewrite take_app_length.
  rewrite drop_ge; [apply app_nil_r |].
  rewrite length_app. simpl. lia.
Qed.

(** X8. Removing an id that is no item of the list changes nothing. *)
Theorem removeFromX_absent (lst : ListType) (x : string) (st : Settings) :
  ~ In x (listItems lst st) -> removeFromX lst x st = st.
Proof.
  intros H. unfold removeFromX.
  rewrite (indexOf_None _ _ H), join_listItems.
  apply setList_getList.
Qed.

Lemma removeFromX_absent_witness :
  removeFromX whitelistedIdsT "23" (settingsWith "1234,77" "23") = settingsWith "1234,77" "23".
Proof.
  apply removeFromX_absent.
  simpl. intros [H | [H | []]]; discriminate.
Defined.

(** The entries after [addToX], for use in the lemmas below. *)
Lemma entries_addToX (lst : ListType) (x : string) (st : Settings) :
  commaFree x = true ->
  entries lst (addToX lst x st) = (listItems lst st ++ [x])%list.
Proof.
  intros Hx. unfold addToX, entries.
  rewrite getList_setList_same. apply split_join.
  - destruct (listItems lst st); discriminate.
  - apply Forall_app. split.
    + apply listItems_commaFree.
    + repeat constructor. exact Hx.
Qed.

(** X9. [addToX] appends without looking: the entries of the list
    afterwards are the items before followed by the new id, whether or
    not it was there already. *)
Theorem addToX_appends (lst : ListType) (x : string) (st : Settings) :
  commaFree x = true ->
  entries lst (addToX lst x st) = (listItems lst st ++ [x])%list.
Proof.
  intros Hx. unfold addToX, entries.
  rewrite getList_setList_same. apply split_join.
  - destruct (listItems lst st); discriminate.
  - apply Forall_app. split.
    + apply listItems_commaFree.
    + repeat constructor. exact Hx.
Qed.

Lemma addToX_appends_witness :
  entries blacklistedIdsT (addToX blacklistedIdsT "5" (settingsWith "" "4,5"))
  = (listItems blacklistedIdsT (settingsWith "" "4,5") ++ ["5"])%list.
Proof. apply addToX_appends. reflexivity. Defined.

Lemma join_empty (items : list string) :
  JsString.join items = EmptyString -> items = [] \/ items = [EmptyString].
Proof.
  destruct items as [| x [| y rest]]; simpl.
  - left. reflexivity.
  - intros ->. right. reflexivity.
  - destruct x; discriminate.
Qed.

(** X10. Adding an id that is not yet an item and removing it again restores
    the settings. *)
Theorem removeFromX_addToX (lst : ListType) (x : string) (st : Settings) :
  commaFree x = true ->
  ~ In x (listItems lst st) ->
  removeFromX lst x (addToX lst x st) = st.
Proof.
  intros Hx Hnot. unfold removeFromX.
  assert (Hitems : listItems lst (addToX lst x st) = (listItems lst st ++ [x])%list
                   \/ (listItems lst (addToX lst x st) = [] /\ getList lst st = EmptyString)).
  { pose proof (entries_addToX lst x st Hx) as He. unfold entries in He.
    destruct (JsString.truthy (getList lst (addToX lst x st))) eqn:Et.
    - left. rewrite <- He. unfold listItems. rewrite Et. reflexivity.
    - right. split; [unfold listItems; rewrite Et; reflexivity |].
      apply truthy_false in Et. unfold addToX in Et.
      rewrite getList_setList_same in Et.
      apply join_empty in Et. destruct Et as [Et | Et].
      + destruct (listItems lst st); discriminate.
      + destruct (listItems lst st) as [| y rest] eqn:El.
        * rewrite <- join_listItems, El. reflexivity.
        * destruct rest; discriminate. }
  destruct Hitems as [-> | [-> Hs]].
  - rewrite (indexOf_last _ _ Hnot), splice1_last, join_listItems.
    unfold addToX. rewrite setList_setList. apply setList_getList.
  - cbn [JsString.indexOf JsString.join]. unfold addToX.
    rewrite setList_setList, <- Hs. apply setList_getList.
Qed.

Lemma removeFromX_addToX_witness :
  removeFromX blacklistedIdsT "5" (addToX blacklistedIdsT "5" (settingsWith "9" "4,6"))
  = settingsWith "9" "4,6".
Proof.
  apply removeFromX_addToX.
  - reflexivity.
  - simpl. intros [H | [H | []]]; discriminate.
Defined.

Lemma count_remove_first (items : list string) (x y : string) :
  count_occ string_dec
    (match JsString.indexOf items x with
     | Some index => JsString.splice1 index items
     | None => items
     end) y
  = if string_dec x y then Nat.pred (count_occ string_dec items y)
    else count_occ string_dec items y.
Proof.
  induction items as [| z rest IH].
  - simpl. destruct (string_dec x y); reflexivity.
  - cbn [JsString.indexOf].
    destruct (String.eqb_spec z x) as [-> | Hne].
    + unfold JsString.splice1. cbn [take drop app].
      destruct (string_dec x y) as [-> | Hxy].
      * rewrite count_occ_cons_eq by reflexivity. reflexivity.
      * rewrite count_occ_cons_neq by exact Hxy. reflexivity.
    + destruct (JsString.indexOf rest x) as [i |]; cbn [option_map].
      * unfold JsString.splice1 in *. cbn [take drop app].
        destruct (string_dec z y) as [-> | Hzy].
        -- rewrite !count_occ_cons_eq by reflexivity. rewrite IH.
           destruct (string_dec x y); [congruence | reflexivity].
        -- rewrite !count_occ_cons_neq by exact Hzy. exact IH.
      * revert IH. destruct (string_dec x y) as [<- | Hxy]; intros IH; [| reflexivity].
        rewrite count_occ_cons_neq by exact Hne. exact IH.
Qed.

Lemma count_entries_join (items : list string) (y : string) :
  y <> EmptyString ->
  Forall (fun e => commaFree e = true) items ->
  count_occ string_dec (JsString.split (JsString.join items)) y
  = count_occ string_dec items y.
Proof.
  intros Hy Hcf. destruct items as [| z rest].
  - change (JsString.split (JsString.join [])) with [EmptyString].
    rewrite count_occ_cons_neq by congruence. reflexivity.
  - rewrite split_join; [reflexivity | discriminate | exact Hcf].
Qed.

(** The occurrences after [removeFromX], for use in the lemmas below. *)
Lemma count_removeFromX (lst : ListType) (x y : string) (st : Settings) :
  y <> EmptyString ->
  count_occ string_dec (entries lst (removeFromX lst x st)) y
  = if string_dec x y then Nat.pred (count_occ string_dec (entries lst st) y)
    else count_occ string_dec (entries lst st) y.
Proof.
  intros Hy. unfold removeFromX, entries at 1.
  rewrite getList_setList_same.
  rewrite count_entries_join.
  - rewrite count_remove_first, (count_listItems lst y st Hy). reflexivity.
  - exact Hy.
  - destruct (JsString.indexOf (listItems lst st) x).
    + apply splice1_commaFree. apply listItems_commaFree.
    + apply listItems_commaFree.
Qed.

Lemma indexOf_first (items : list string) (x : string) :
  In x items ->
  exists pre post,
    items = (pre ++ x :: post)%list /\ ~ In x pre
    /\ JsString.indexOf items x = Some (length pre).
Proof.
  induction items as [| y rest IH]; intros Hin; [destruct Hin |].
  cbn [JsString.indexOf].
  destruct (String.eqb_spec y x) as [-> | Hne].
  - exists [], rest. split; [reflexivity |]. split; [tauto | reflexivity].
  - destruct Hin as [Hin | Hin]; [congruence |].
    destruct (IH Hin) as (pre & post & -> & Hpre & Hidx).
    exists (y :: pre), post. split; [reflexivity |]. split.
    + intros [H | H]; [congruence | tauto].
    + rewrite Hidx. reflexivity.
Qed.

Lemma splice1_middle (pre post : list string) (x : string) :
  JsString.splice1 (length pre) (pre ++ x :: post)%list = (pre ++ post)%list.
Proof.
  unfold JsString.splice1.
  induction pre as [| y pre IH]; [reflexivity |].
  cbn [length app take drop]. f_equal. exact IH.
Qed.

(** X11. [removeFromX] removes the first occurrence of the id and
    nothing else. When the items are [pre ++ x :: post] with [x] not in
    [pre], the stored string becomes the join of [pre ++ post]; the
    entries afterwards are [pre ++ post] (the single empty entry when
    nothing is left), later occurrences of [x] included; the other list
    is as before. *)
Theorem removeFromX_removes_first (lst : ListType) (x : string) (st : Settings) :
  In x (listItems lst st) ->
  exists pre post,
    listItems lst st = (pre ++ x :: post)%list
    /\ ~ In x pre
    /\ getList lst (removeFromX lst x st) = JsString.join (pre ++ post)
    /\ entries lst (removeFromX lst x st)
       = match (pre ++ post)%list with
         | [] => [EmptyString]
         | _ => (pre ++ post)%list
         end
    /\ getList (oppositeListType lst) (removeFromX lst x st)
       = getList (oppositeListType lst) st.
Proof.
  intros Hin.
  destruct (indexOf_first _ _ Hin) as (pre & post & Hitems & Hpre & Hidx).
  exists pre, post. split; [exact Hitems |]. split; [exact Hpre |].
  assert (Hstr : getList lst (removeFromX lst x st) = JsString.join (pre ++ post)).
  { unfold removeFromX. rewrite getList_setList_same, Hidx, Hitems, splice1_middle.
    reflexivity. }
  split; [exact Hstr |]. split.
  - unfold entries. rewrite Hstr.
    destruct (pre ++ post)%list as [| y rest] eqn:E; [reflexivity |].
    apply split_join; [discriminate |].
    rewrite <- E.
    pose proof (listItems_commaFree lst st) as Hcf. rewrite Hitems in Hcf.
    apply Forall_app in Hcf. destruct Hcf as [Hcp Hcx].
    apply Forall_app. split; [exact Hcp |].
    inversion Hcx; assumption.
  - unfold removeFromX. apply getList_setList_opposite.
Qed.

Lemma removeFromX_removes_first_witness :
  exists pre post,
    listItems blacklistedIdsT (settingsWith "9" "4,5,6,5") = (pre ++ "5" :: post)%list
    /\ ~ In "5" pre
    /\ getList blacklistedIdsT (removeFromX blacklistedIdsT "5" (settingsWith "9" "4,5,6,5"))
       = JsString.join (pre ++ post)
    /\ entries blacklistedIdsT (removeFromX blacklistedIdsT "5" (settingsWith "9" "4,5,6,5"))
       = match (pre ++ post)%list with
         | [] => [EmptyString]
         | _ => (pre ++ post)%list
         end
    /\ getList (oppositeListType blacklistedIdsT)
         (removeFromX blacklistedIdsT "5" (settingsWith "9" "4,5,6,5"))
       = getList (oppositeListType blacklistedIdsT) (settingsWith "9" "4,5,6,5").
Proof.
  apply removeFromX_removes_first.
  simpl. right. left. reflexivity.
Defined.

(** What that call leaves: the second "5" stays, after "6". *)
Example removeFromX_keeps_later_occurrence :
  blacklistedIds (removeFromX blacklistedIdsT "5" (settingsWith "9" "4,5,6,5")) = "4,6,5".
Proof. reflexivity. Qed.

Lemma entries_addToX_opposite (lst : ListType) (x : string) (st : Settings) :
  entries (oppositeListType lst) (addToX lst x st) = entries (oppositeListType lst) st.
Proof. unfold entries, addToX. rewrite getList_setList_opposite. reflexivity. Qed.

Lemma entries_removeFromX_other (lst : ListType) (x : string) (st : Settings) :
  entries lst (removeFromX (oppositeListType lst) x st) = entries lst st.
Proof. unfold entries, removeFromX. rewrite getList_setList_other. reflexivity. Qed.

Lemma listItems_removeFromX_other (lst : ListType) (x : string) (st : Settings) :
  listItems lst (removeFromX (oppositeListType lst) x st) = listItems lst st.
Proof. unfold listItems, removeFromX. rewrite getList_setList_other. reflexivity. Qed.

Lemma oppositeListType_involutive (lst : ListType) :
  oppositeListType (oppositeListType lst) = lst.
Proof. destruct lst; reflexivity. Qed.

Lemma count_zero_not_In (l : list string) (x : string) :
  count_occ string_dec l x = 0%nat -> ~ In x l.
Proof. intros H. apply (count_occ_not_In string_dec). exact H. Qed.

(** X12. Moving an id from one list to the other: after
    [addToXAndRemoveFromOpposite] on the opposite list and then on the
    named list, an id that was no entry of the opposite list and at most
    once an entry of the named list is an entry of the named list,
    exactly once, and no entry of the opposite list. *)
Theorem move_between_lists (lst : ListType) (x : string) (st : Settings) :
  x <> EmptyString ->
  commaFree x = true ->
  ~ In x (entries (oppositeListType lst) st) ->
  (count_occ string_dec (entries lst st) x <= 1)%nat ->
  let st' := addToXAndRemoveFromOpposite lst x
               (addToXAndRemoveFromOpposite (oppositeListType lst) x st) in
  count_occ string_dec (entries lst st') x = 1%nat
  /\ ~ In x (entries (oppositeListType lst) st').
Proof.
  intros Hne Hcf Hopp Hc. cbv zeta. unfold addToXAndRemoveFromOpposite.
  rewrite oppositeListType_involutive.
  set (o := oppositeListType lst).
  set (s1 := removeFromX lst x st).
  set (s2 := addToX o x s1).
  set (s3 := removeFromX o x s2).
  assert (H1 : count_occ string_dec (entries lst s1) x = 0%nat).
  { subst s1. rewrite count_removeFromX by exact Hne.
    destruct (string_dec x x); [lia | congruence]. }
  assert (H2o : count_occ string_dec (entries o s2) x = 1%nat).
  { subst s2. rewrite entries_addToX by exact Hcf.
    rewrite count_occ_app. simpl. destruct (string_dec x x); [| congruence].
    subst s1 o.
    rewrite <- (oppositeListType_involutive lst) at 2.
    rewrite listItems_removeFromX_other.
    rewrite (count_listItems _ x st Hne).
    apply (count_occ_not_In string_dec) in Hopp. rewrite Hopp. reflexivity. }
  assert (H2l : count_occ string_dec (entries lst s2) x = 0%nat).
  { subst s2 o. rewrite <- (oppositeListType_involutive lst) at 1.
    rewrite entries_addToX_opposite, oppositeListType_involutive. exact H1. }
  assert (H3o : count_occ string_dec (entries o s3) x = 0%nat).
  { subst s3. rewrite count_removeFromX by exact Hne.
    destruct (string_dec x x); [lia | congruence]. }
  assert (H3l : count_occ string_dec (listItems lst s3) x = 0%nat).
  { subst s3 o. rewrite listItems_removeFromX_other.
    rewrite (count_listItems _ x s2 Hne). exact H2l. }
  split.
  - rewrite entries_addToX by exact Hcf.
    rewrite count_occ_app, H3l. simpl.
    destruct (string_dec x x); [reflexivity | congruence].
  - subst o. rewrite entries_addToX_opposite.
    apply count_zero_not_In. exact H3o.
Qed.

Lemma move_between_lists_witness :
  let st' := addToXAndRemoveFromOpposite whitelistedIdsT "5"
               (addToXAndRemoveFromOpposite blacklistedIdsT "5" (settingsWith "5,7" "4")) in
  count_occ string_dec (entries whitelistedIdsT st') "5" = 1%nat
  /\ ~ In "5" (entries blacklistedIdsT st').
Proof.
  apply (move_between_lists whitelistedIdsT "5" (settingsWith "5,7" "4")).
  - discriminate.
  - reflexivity.
  - simpl. intros [H | []]. discriminate.
  - vm_compute. lia.
Defined.

(** ** The list operations and the retention policy together *)

Lemma contentHasBlacklistedWord_moved (lst : ListType) (x : string) (st : Settings)
    (a : ShouldIgnoreArguments) :
  contentHasBlacklistedWord (addToXAndRemoveFromOpposite lst x st) a
  = contentHasBlacklistedWord st a.
Proof. destruct lst; reflexivity. Qed.

(** X13. Whitelisting an author makes the policy keep the author's messages:
    after [addToXAndRemoveFromOpposite("whitelistedIds", authorId)] a
    message of that author is kept unless it is ephemeral, has a
    blacklisted word or is the user's own under [ignoreSelf]; being a
    bot or blacklisted elsewhere does not matter. *)
Theorem whitelisted_author_kept (env : Env) (st : Settings) (a : ShouldIgnoreArguments) :
  commaFree (authorId a) = true ->
  Z.testbit (flags a) 6 = false ->
  contentHasBlacklistedWord st a = false ->
  ignoreSelf st && String.eqb (authorId a) (myId env) = false ->
  shouldIgnore env (addToXAndRemoveFromOpposite whitelistedIdsT (authorId a) st) a = false.
Proof.
  intros Hcf Hbit Hword Hself.
  set (st' := addToXAndRemoveFromOpposite whitelistedIdsT (authorId a) st).
  assert (Hin : In (authorId a) (JsString.split (whitelistedIds st'))).
  { apply (addToX_adds whitelistedIdsT). exact Hcf. }
  assert (Hauthor : isAuthorWhitelisted st' a = true).
  { apply split_In_includes. exact Hin. }
  unfold shouldIgnore.
  rewrite isEphemeral_testbit, Hbit.
  subst st'. rewrite contentHasBlacklistedWord_moved, Hword.
  change (ignoreSelf (addToXAndRemoveFromOpposite whitelistedIdsT (authorId a) st))
    with (ignoreSelf st).
  rewrite Hself, Hauthor, andb_false_r. cbn [orb].
  destruct (alwaysLogDirectMessages _ && isDM env (channelId a));
    destruct (optTrue (ghostPinged a)); reflexivity.
Qed.

Lemma whitelisted_author_kept_witness :
  shouldIgnore env1
    (addToXAndRemoveFromOpposite whitelistedIdsT "23"
       (mkSettings "" "23,1,9" "spam" false false true true true true true false))
    (mkArgs "1" "23" (Some "9") 0 true None (Some true) (Some "hello")) = false.
Proof. apply whitelisted_author_kept; reflexivity. Defined.

(** X14. Blacklisting an author makes the policy ignore the author's
    messages as far as no keeping rule intervenes: after
    [addToXAndRemoveFromOpposite("blacklistedIds", authorId)] a message
    of that author is ignored unless it is a kept DM, a ghost ping, or a
    whitelist test still succeeds in the new settings. *)
Theorem blacklisted_author_ignored (env : Env) (st : Settings) (a : ShouldIgnoreArguments) :
  commaFree (authorId a) = true ->
  alwaysLogDirectMessages st && isDM env (channelId a) = false ->
  optTrue (ghostPinged a) = false ->
  keptByWhitelist (addToXAndRemoveFromOpposite blacklistedIdsT (authorId a) st) a = false ->
  shouldIgnore env (addToXAndRemoveFromOpposite blacklistedIdsT (authorId a) st) a = true.
Proof.
  intros Hcf Hdm Hg Hw.
  set (st' := addToXAndRemoveFromOpposite blacklistedIdsT (authorId a) st) in *.
  assert (Hb : isBlacklisted st' a = true).
  { apply isBlacklisted_complete. left.
    apply (addToX_adds blacklistedIdsT). exact Hcf. }
  unfold shouldIgnore. unfold keptByWhitelist in Hw.
  change (alwaysLogDirectMessages st') with (alwaysLogDirectMessages st).
  rewrite Hdm, Hg, Hw, Hb, !orb_true_r.
  destruct (isEphemeral a); [reflexivity |].
  destruct (contentHasBlacklistedWord st' a); [reflexivity |].
  destruct (ignoreSelf st' && String.eqb (authorId a) (myId env)); [reflexivity |].
  destruct (ignoreBots st' && bot a && negb (isAuthorWhitelisted st' a)); reflexivity.
Qed.

Lemma blacklisted_author_ignored_witness :
  shouldIgnore env1
    (addToXAndRemoveFromOpposite blacklistedIdsT "23"
       (mkSettings "23,55" "" "" true false false false false false false true))
    (mkArgs "1" "23" (Some "9") 0 false None None (Some "hello")) = true.
Proof. apply blacklisted_author_ignored; reflexivity. Defined.

(** * Further properties of the reconciler *)

Lemma splice_sublist {A : Type} (i : nat) (x : A) (l : list A) :
  sublist l (splice i x l).
Proof.
  unfold splice. rewrite <- (take_drop i l) at 1.
  apply sublist_app; [reflexivity |]. apply sublist_cons. reflexivity.
Qed.

Lemma spliceLoop_sublist (loggedMessages : gmap string LoggedRecord) (reAddIDs : list Id) :
  forall (i : nat) (messages result : list LoggedMessageJSON),
    spliceLoop loggedMessages i reAddIDs messages = Some result ->
    sublist messages result.
Proof.
  induction reAddIDs as [| e rest IH]; intros i messages result; simpl.
  - intros [= <-]. reflexivity.
  - destruct (hasId (id e) messages); [apply IH |].
    destruct (loggedMessages !! id e) as [record |]; [| discriminate].
    destruct (message record) as [m |]; [| apply IH].
    intros H. etransitivity; [apply (splice_sublist i m) | exact (IH _ _ _ H)].
Qed.

(** Every early return of [reAddDeletedMessages] gives the messages
    back; otherwise the result is that of the last loop. *)
Lemma reAddDeletedMessages_cases (loggedMessages : gmap string LoggedRecord)
    (messages : list LoggedMessageJSON) (deletedMessages : option (list string))
    (channelStart channelEnd : bool) (result : list LoggedMessageJSON) :
  reAddDeletedMessages loggedMessages messages deletedMessages channelStart channelEnd
    = Some result ->
  result = messages
  \/ exists deleted lowest highest,
       deletedMessages = Some deleted
       /\ last (liveIDs messages) = Some lowest
       /\ head (liveIDs messages) = Some highest
       /\ lowestIDX channelEnd (savedIDs loggedMessages deleted) (time lowest) <> -1
       /\ highestIDX channelStart (savedIDs loggedMessages deleted) (time highest) <> -1
       /\ spliceLoop loggedMessages 0
            (sortBy descending
               (slice (lowestIDX channelEnd (savedIDs loggedMessages deleted) (time lowest))
                      (highestIDX channelStart (savedIDs loggedMessages deleted)
                         (time highest) + 1)
                      (savedIDs loggedMessages deleted)
                ++ liveIDs messages))
            messages = Some result.
Proof.
  unfold reAddDeletedMessages.
  destruct messages as [| m0 rest]; [intros [= <-]; left; reflexivity |].
  destruct deletedMessages as [[| d0 drest] |];
    try (intros [= <-]; left; reflexivity).
  destruct (savedIDs loggedMessages (d0 :: drest)) as [| s0 srest] eqn:Esaved;
    [intros [= <-]; left; reflexivity |].
  rewrite <- Esaved.
  destruct (last (liveIDs (m0 :: rest))) as [lowest |] eqn:Elast; [| discriminate].
  destruct (head (liveIDs (m0 :: rest))) as [highest |] eqn:Ehead; [| discriminate].
  destruct (Z.eqb_spec (lowestIDX channelEnd (savedIDs loggedMessages (d0 :: drest))
                          (time lowest)) (-1)) as [_ | Hlo];
    [intros [= <-]; left; reflexivity |].
  destruct (Z.eqb_spec (highestIDX channelStart (savedIDs loggedMessages (d0 :: drest))
                          (time highest)) (-1)) as [_ | Hhi];
    [intros [= <-]; left; reflexivity |].
  intros H. right. exists (d0 :: drest), lowest, highest.
  repeat (split; [reflexivity || assumption |]). exact H.
Qed.

(** X16. The live messages survive in their order: they form a subsequence of
    the result, so nothing is removed, replaced or reordered. *)
Theorem reAddDeletedMessages_keeps_live (loggedMessages : gmap string LoggedRecord)
    (messages : list LoggedMessageJSON) (deletedMessages : option (list string))
    (channelStart channelEnd : bool) (result : list LoggedMessageJSON) :
  reAddDeletedMessages loggedMessages messages deletedMessages channelStart channelEnd
    = Some result ->
  sublist messages result.
Proof.
  intros H. apply reAddDeletedMessages_cases in H.
  destruct H as [-> | (deleted & lowest & highest & _ & _ & _ & _ & _ & H)].
  - reflexivity.
  - exact (spliceLoop_sublist _ _ _ _ _ H).
Qed.

Lemma reAddDeletedMessages_keeps_live_witness :
  sublist [msg300; msg200] [msg300; msg250; msg200].
Proof.
  apply (reAddDeletedMessages_keeps_live sampleStore [msg300; msg200]
           (Some ["1048576000"]) false false).
  vm_compute. reflexivity.
Defined.

Lemma hasId_splice_false (k : string) (i : nat) (m : LoggedMessageJSON)
    (messages : list LoggedMessageJSON) :
  hasId k (splice i m messages) = false -> hasId k messages = false.
Proof.
  intros H. destruct (hasId k messages) eqn:E; [| reflexivity].
  apply hasId_In in E.
  assert (Hin : In k (messageIds (splice i m messages))).
  { apply (Permutation_in _ (Permutation_sym (messageIds_splice i m messages))).
    right. exact E. }
  apply hasId_In in Hin. congruence.
Qed.

Lemma splice_In {A : Type} (i : nat) (x y : A) (l : list A) :
  In y (splice i x l) -> y = x \/ In y l.
Proof.
  intros H. apply (Permutation_in _ (splice_perm i x l)) in H.
  destruct H as [<- | H]; [left; reflexivity | right; exact H].
Qed.

(** What the last loop inserts is the cached body of an entry whose id
    was not among the messages. *)
Lemma spliceLoop_provenance (loggedMessages : gmap string LoggedRecord) (reAddIDs : list Id) :
  forall (i : nat) (messages result : list LoggedMessageJSON) (m : LoggedMessageJSON),
    spliceLoop loggedMessages i reAddIDs messages = Some result ->
    In m result ->
    In m messages
    \/ exists e record,
         In e reAddIDs /\ hasId (id e) messages = false
         /\ loggedMessages !! id e = Some record /\ message record = Some m.
Proof.
  induction reAddIDs as [| e rest IH]; intros i messages result m; simpl.
  - intros [= <-] Hin. left. exact Hin.
  - destruct (hasId (id e) messages) eqn:Ehas.
    + intros H Hin. destruct (IH _ _ _ _ H Hin) as [Hl | (e' & r & He' & Hx)];
        [left; exact Hl | right; exists e', r; tauto].
    + destruct (loggedMessages !! id e) as [record |] eqn:Erec; [| discriminate].
      destruct (message record) as [b |] eqn:Eb.
      * intros H Hin. destruct (IH _ _ _ _ H Hin) as [Hl | (e' & r & He' & Hh & Hx)].
        -- apply splice_In in Hl. destruct Hl as [-> | Hl]; [| left; exact Hl].
           right. exists e, record. tauto.
        -- right. exists e', r. apply hasId_splice_false in Hh. tauto.
      * intros H Hin. destruct (IH _ _ _ _ H Hin) as [Hl | (e' & r & He' & Hx)];
          [left; exact Hl | right; exists e', r; tauto].
Qed.

Lemma collectSaved_In (loggedMessages : gmap string LoggedRecord)
    (deleted : list string) (e : Id) :
  In e (collectSaved loggedMessages deleted) ->
  In (id e) deleted /\ time e = snowflakeTime (id e).
Proof.
  induction deleted as [| k rest IH]; simpl; [tauto |].
  destruct (loggedMessages !! k).
  - intros [<- | H]; [split; [left |]; reflexivity |].
    destruct (IH H). split; [right |]; assumption.
  - intros H. destruct (IH H). split; [right |]; assumption.
Qed.

(** An entry of the merged sequence whose id is not live comes from the
    window of deleted entries. *)
Lemma reAddIDs_not_live (saved : list Id) (messages : list LoggedMessageJSON) (e : Id) :
  In e (sortBy descending (saved ++ liveIDs messages)) ->
  hasId (id e) messages = false ->
  In e saved.
Proof.
  intros He Hh. apply (Permutation_in _ (sortBy_perm _ _)) in He.
  apply in_app_or in He. destruct He as [He | He]; [exact He |].
  apply liveIDs_hasId in He. congruence.
Qed.

(** X17. Nothing is invented: every message of the result is a live message
    or the cached body of a listed deleted id that was not live. *)
Theorem reAddDeletedMessages_provenance (loggedMessages : gmap string LoggedRecord)
    (messages : list LoggedMessageJSON) (deletedMessages : option (list string))
    (channelStart channelEnd : bool) (result : list LoggedMessageJSON)
    (m : LoggedMessageJSON) :
  reAddDeletedMessages loggedMessages messages deletedMessages channelStart channelEnd
    = Some result ->
  In m result ->
  In m messages
  \/ exists deleted k record,
       deletedMessages = Some deleted /\ In k deleted
       /\ ~ In k (messageIds messages)
       /\ loggedMessages !! k = Some record /\ message record = Some m.
Proof.
  intros H Hin. apply reAddDeletedMessages_cases in H.
  destruct H as [-> | (deleted & lowest & highest & -> & _ & _ & _ & _ & H)];
    [left; exact Hin |].
  destruct (spliceLoop_provenance _ _ _ _ _ _ H Hin)
    as [Hl | (e & record & He & Hh & Hrec & Hm)]; [left; exact Hl |].
  right. exists deleted, (id e), record.
  split; [reflexivity |].
  apply reAddIDs_not_live in He; [| exact Hh].
  apply slice_In in He. unfold savedIDs in He.
  apply (Permutation_in _ (sortBy_perm _ _)) in He.
  apply collectSaved_In in He. destruct He as [He _].
  split; [exact He |]. split; [| tauto].
  intros Hc. apply hasId_In in Hc. congruence.
Qed.

Lemma reAddDeletedMessages_provenance_witness :
  In msg250 [msg300; msg200]
  \/ exists deleted k record,
       Some ["4194304"; "1048576000"; "943718400"] = Some deleted /\ In k deleted
       /\ ~ In k (messageIds [msg300; msg200])
       /\ sampleStore !! k = Some record /\ message record = Some msg250.
Proof.
  apply (reAddDeletedMessages_provenance sampleStore [msg300; msg200]
           (Some ["4194304"; "1048576000"; "943718400"]) false false
           [msg300; msg250; msg200]).
  - vm_compute. reflexivity.
  - right. left. reflexivity.
Defined.

(** ** The order of the derived times *)

Lemma roundEven_mono (e a b : Z) :
  0 <= e -> 0 <= a <= b -> roundEven e a <= roundEven e b.
Proof.
  intros He [Ha Hab].
  assert (HP : 0 < 2 ^ e) by (apply Z.pow_pos_nonneg; lia).
  unfold roundEven.
  pose proof (Z.div_mod a (2 ^ e) ltac:(lia)) as Hda.
  pose proof (Z.mod_pos_bound a (2 ^ e) HP) as Hra.
  pose proof (Z.div_mod b (2 ^ e) ltac:(lia)) as Hdb.
  pose proof (Z.mod_pos_bound b (2 ^ e) HP) as Hrb.
  assert (Hq : a / 2 ^ e <= b / 2 ^ e) by (apply Z.div_le_mono; lia).
  set (P := 2 ^ e) in *.
  set (qa := a / P) in *. set (ra := a mod P) in *.
  set (qb := b / P) in *. set (rb := b mod P) in *.
  destruct (Z.eq_dec qa qb) as [Heq | Hneq].
  - assert (Hr : ra <= rb) by nia. rewrite Heq in *.
    destruct (Z.ltb_spec (2 * ra) P); destruct (Z.ltb_spec (2 * rb) P); try nia;
      destruct (Z.ltb_spec P (2 * ra)); destruct (Z.ltb_spec P (2 * rb)); try nia;
        destruct (Z.even qb); nia.
  - assert (Hlt : qa + 1 <= qb) by lia.
    assert (Hua : (if 2 * ra <? P then qa * P
                   else if P <? 2 * ra then (qa + 1) * P
                        else if Z.even qa then qa * P else (qa + 1) * P)
                  <= (qa + 1) * P).
    { destruct (2 * ra <? P); [nia |]. destruct (P <? 2 * ra); [nia |].
      destruct (Z.even qa); nia. }
    assert (Hlb : qb * P
                  <= (if 2 * rb <? P then qb * P
                      else if P <? 2 * rb then (qb + 1) * P
                           else if Z.even qb then qb * P else (qb + 1) * P)).
    { destruct (2 * rb <? P); [nia |]. destruct (P <? 2 * rb); [nia |].
      destruct (Z.even qb); nia. }
    nia.
Qed.

Lemma roundEven_0 (e : Z) : 0 <= e -> roundEven e 0 = 0.
Proof.
  intros He. unfold roundEven. rewrite Zdiv_0_l, Zmod_0_l.
  assert (HP : 0 < 2 ^ e) by (apply Z.pow_pos_nonneg; lia).
  destruct (Z.ltb_spec (2 * 0) (2 ^ e)); lia.
Qed.

Lemma round53_pos (n : Z) :
  0 < n -> round53 n = roundEven (Z.max 0 (Z.log2 n - 52)) n.
Proof.
  intros Hn. unfold round53.
  rewrite Z.abs_eq by lia. rewrite Z.sgn_pos by lia. apply Z.mul_1_l.
Qed.

(** Rounding to 53 bits preserves the order of non-negative integers. *)
Lemma round53_mono (a b : Z) : 0 <= a <= b -> round53 a <= round53 b.
Proof.
  intros [Ha Hab].
  destruct (Z.eq_dec b 0) as [-> | Hbz].
  { assert (a = 0) as -> by lia. lia. }
  rewrite (round53_pos b) by lia.
  destruct (Z.eq_dec a 0) as [-> | Haz].
  { change (round53 0) with 0.
    pose proof (roundEven_mono (Z.max 0 (Z.log2 b - 52)) 0 b ltac:(lia) ltac:(lia)) as H0.
    rewrite roundEven_0 in H0 by lia. exact H0. }
  rewrite (round53_pos a) by lia.
  pose proof (Z.log2_le_mono a b Hab) as Hl.
  pose proof (Z.log2_nonneg a) as Hla.
  pose proof (Z.log2_spec a ltac:(lia)) as [_ Hsa].
  pose proof (Z.log2_spec b ltac:(lia)) as [Hsb Hsb'].
  set (ea := Z.max 0 (Z.log2 a - 52)). set (eb := Z.max 0 (Z.log2 b - 52)).
  destruct (Z.eq_dec ea eb) as [Heq | Hneq].
  - rewrite Heq. apply roundEven_mono; lia.
  - assert (Hlt : Z.log2 a + 1 <= Z.log2 b) by lia.
    assert (HaP : a <= 2 ^ Z.log2 b).
    { pose proof (Z.pow_le_mono_r 2 (Z.log2 a + 1) (Z.log2 b) ltac:(lia) Hlt).
      replace (Z.succ (Z.log2 a)) with (Z.log2 a + 1) in Hsa by lia. lia. }
    assert (H1 : 0 <= roundEven ea a <= 2 ^ Z.log2 b).
    { apply roundEven_between; try lia.
      - apply Z.divide_0_r.
      - apply pow2_divide. lia. }
    assert (H2 : 2 ^ Z.log2 b <= roundEven eb b <= 2 ^ Z.succ (Z.log2 b)).
    { apply roundEven_between; try lia.
      - apply pow2_divide. lia.
      - apply pow2_divide. lia. }
    lia.
Qed.

Lemma timeOfInt_not_NaN (n : Z) : timeOfInt n <> NaN.
Proof.
  unfold timeOfInt.
  destruct (2 ^ 1024 <=? round53 n); [discriminate |].
  destruct (round53 n <=? - 2 ^ 1024); discriminate.
Qed.

(** X18. The transform keeps the order of ids: an id that is not larger never
    gets a later time, however the two roundings fall. *)
Theorem snowflakeTime_monotone (k1 k2 : string) (n1 n2 : Z) :
  parseInt k1 = Some n1 ->
  parseInt k2 = Some n2 ->
  0 <= n1 <= n2 ->
  JsNumber.gt (snowflakeTime k1) (snowflakeTime k2) = false.
Proof.
  intros H1 H2 [Hn1 Hle]. unfold snowflakeTime. rewrite H1, H2.
  pose proof (round53_mono n1 n2 ltac:(lia)) as Hq.
  pose proof (round53_mono 0 n1 ltac:(lia)) as Hq0.
  change (round53 0) with 0 in Hq0.
  unfold timeOfInt.
  destruct (Z.leb_spec (2 ^ 1024) (round53 n1)) as [Hb1 | Hb1].
  - destruct (Z.leb_spec (2 ^ 1024) (round53 n2)) as [_ | Hb2]; [reflexivity | lia].
  - assert (Hpow : 0 < 2 ^ 1024) by (apply Z.pow_pos_nonneg; lia).
    destruct (Z.leb_spec (round53 n1) (- 2 ^ 1024)) as [Hc | _]; [lia |].
    destruct (Z.leb_spec (2 ^ 1024) (round53 n2)) as [_ | Hb2]; [reflexivity |].
    destruct (Z.leb_spec (round53 n2) (- 2 ^ 1024)) as [Hc | _]; [lia |].
    unfold JsNumber.gt. cbn [JsNumber.compare].
    pose proof (round53_mono (round53 n1 + DISCORD_EPOCH * 4194304)
                  (round53 n2 + DISCORD_EPOCH * 4194304)) as Hm.
    unfold DISCORD_EPOCH in *.
    specialize (Hm ltac:(lia)).
    destruct (Z.compare_spec (round53 (round53 n1 + 1420070400000 * 4194304))
                (round53 (round53 n2 + 1420070400000 * 4194304))); try reflexivity.
    lia.
Qed.

Lemma snowflakeTime_monotone_witness :
  JsNumber.gt (snowflakeTime "9007199254740993") (snowflakeTime "9007199254740995") = false.
Proof.
  apply (snowflakeTime_monotone _ _ 9007199254740993 9007199254740995).
  - reflexivity.
  - reflexivity.
  - lia.
Defined.

(** ** The window of deleted entries *)

Ltac number_cases :=
  repeat match goal with
         | x : number |- _ => destruct x
         end;
  unfold JsNumber.gt, JsNumber.lt, subSign in *; cbn [JsNumber.compare] in *;
  try congruence;
  repeat match goal with
         | H : context [(?x ?= ?y)] |- _ =>
             destruct (Z.compare_spec x y); try discriminate; try congruence
         | |- context [(?x ?= ?y)] =>
             destruct (Z.compare_spec x y); try discriminate; try congruence
         end;
  try lia.

Lemma subSign_gt (a b : number) : subSign a b <> Gt <-> JsNumber.gt a b = false.
Proof. split; intros H; number_cases. Qed.

Lemma subSign_Gt_flip (a b : number) : subSign a b = Gt -> JsNumber.gt b a = false.
Proof. intros H. number_cases. Qed.

Lemma gt_false_trans (a b c : number) :
  b <> NaN -> JsNumber.gt a b = false -> JsNumber.gt b c = false ->
  JsNumber.gt a c = false.
Proof. intros Hb H1 H2. number_cases. Qed.

Lemma gt_upward (a b t : number) :
  b <> NaN -> JsNumber.gt a t = true -> JsNumber.gt a b = false ->
  JsNumber.gt b t = true.
Proof. intros Hb H1 H2. number_cases. Qed.

Lemma lt_downward (a b t : number) :
  a <> NaN -> JsNumber.lt b t = true -> JsNumber.gt a b = false ->
  JsNumber.lt a t = true.
Proof. intros Ha H1 H2. number_cases. Qed.

(** With numeric times the ascending sort yields a list in which no
    entry is later than any entry after it. *)
Lemma insertBy_notLater (x : Id) (l : list Id) :
  List.Forall numericTime (x :: l) ->
  StronglySorted notLater l ->
  StronglySorted notLater (insertBy ascending x l).
Proof.
  intros Hnum. induction l as [| y l IH]; intros Hs; simpl.
  - repeat constructor.
  - inversion Hs as [| ? ? Hl Hy]; subst.
    inversion Hnum as [| ? ? Hx Hrest]; subst.
    inversion Hrest as [| ? ? Hny Hnl]; subst.
    destruct (ascending x y) eqn:E.
    + constructor; [exact Hs |]. constructor.
      * apply subSign_gt. unfold ascending in E. congruence.
      * eapply List.Forall_impl; [| exact Hy]. intros z Hz.
        apply (gt_false_trans _ (time y)); [exact Hny | | exact Hz].
        apply subSign_gt. unfold ascending in E. congruence.
    + constructor; [exact Hs |]. constructor.
      * apply subSign_gt. unfold ascending in E. congruence.
      * eapply List.Forall_impl; [| exact Hy]. intros z Hz.
        apply (gt_false_trans _ (time y)); [exact Hny | | exact Hz].
        apply subSign_gt. unfold ascending in E. congruence.
    + constructor.
      * apply IH; [constructor; assumption | exact Hl].
      * apply List.Forall_forall. intros z Hz.
        apply (Permutation_in _ (insertBy_perm _ _ _)) in Hz.
        destruct Hz as [<- | Hz].
        -- apply subSign_Gt_flip. exact E.
        -- rewrite List.Forall_forall in Hy. apply Hy. exact Hz.
Qed.

Lemma sortBy_notLater (l : list Id) :
  List.Forall numericTime l -> StronglySorted notLater (sortBy ascending l).
Proof.
  induction l as [| x l IH]; intros Hnum; simpl.
  - constructor.
  - inversion Hnum as [| ? ? Hx Hl]; subst.
    apply insertBy_notLater; [| apply IH; exact Hl].
    constructor; [exact Hx |].
    apply List.Forall_forall. intros z Hz.
    apply (Permutation_in _ (sortBy_perm _ _)) in Hz.
    rewrite List.Forall_forall in Hl. apply Hl. exact Hz.
Qed.

Lemma collectSaved_numeric (loggedMessages : gmap string LoggedRecord) (deleted : list string) :
  (forall k, In k deleted -> is_Some (loggedMessages !! k) -> parseInt k <> None) ->
  List.Forall numericTime (collectSaved loggedMessages deleted).
Proof.
  induction deleted as [| k rest IH]; intros H; simpl; [constructor |].
  assert (Hrest : List.Forall numericTime (collectSaved loggedMessages rest)).
  { apply IH. intros k' Hk'. apply H. right. exact Hk'. }
  destruct (loggedMessages !! k) as [r |] eqn:E; [| exact Hrest].
  constructor; [| exact Hrest].
  unfold numericTime, snowflakeTime. cbn [time].
  destruct (parseInt k) as [n |] eqn:Ep.
  - apply timeOfInt_not_NaN.
  - exfalso. apply (H k); [left; reflexivity | rewrite E; eexists; reflexivity | exact Ep].
Qed.

Lemma savedIDs_numeric (loggedMessages : gmap string LoggedRecord) (deleted : list string) :
  (forall k, In k deleted -> is_Some (loggedMessages !! k) -> parseInt k <> None) ->
  List.Forall numericTime (savedIDs loggedMessages deleted)
  /\ StronglySorted notLater (savedIDs loggedMessages deleted).
Proof.
  intros H. pose proof (collectSaved_numeric _ _ H) as Hn. split.
  - apply List.Forall_forall. intros z Hz. unfold savedIDs in Hz.
    apply (Permutation_in _ (sortBy_perm _ _)) in Hz.
    rewrite List.Forall_forall in Hn. apply Hn. exact Hz.
  - apply sortBy_notLater. exact Hn.
Qed.

Lemma findIndex_ge {A : Type} (p : A -> bool) (l : list A) : -1 <= findIndex p l.
Proof.
  induction l as [| x l IH]; simpl; [lia |].
  destruct (p x); [lia |]. destruct (Z.eqb_spec (findIndex p l) (-1)); lia.
Qed.

Lemma findLastIndex_ge {A : Type} (l : list A) (p : A -> bool) : -1 <= findLastIndex l p.
Proof.
  induction l as [| x l IH]; simpl; [lia |].
  destruct (Z.eqb_spec (findLastIndex l p) (-1)); [destruct (p x) |]; lia.
Qed.

(** From the first entry that satisfies an upward-closed test on, every
    entry of a sorted list satisfies it. *)
Lemma findIndex_drop (p : Id -> bool) (l : list Id) :
  (forall a b, p a = true -> notLater a b -> numericTime b -> p b = true) ->
  List.Forall numericTime l -> StronglySorted notLater l ->
  findIndex p l <> -1 ->
  List.Forall (fun e => p e = true) (drop (Z.to_nat (findIndex p l)) l).
Proof.
  intros Hup. induction l as [| x l IH]; intros Hnum Hs; simpl; [congruence |].
  inversion Hs as [| ? ? Hl Hx]; subst.
  inversion Hnum as [| ? ? Hnx Hnl]; subst.
  destruct (p x) eqn:Ex.
  - intros _. cbn [Z.to_nat drop]. constructor; [exact Ex |].
    apply List.Forall_forall. intros z Hz.
    rewrite List.Forall_forall in Hx, Hnl.
    apply (Hup x z Ex); [apply Hx | apply Hnl]; exact Hz.
  - pose proof (findIndex_ge p l) as Hge.
    destruct (Z.eqb_spec (findIndex p l) (-1)) as [E | E]; [congruence |].
    intros _. replace (Z.to_nat (findIndex p l + 1)) with (S (Z.to_nat (findIndex p l))) by lia.
    cbn [drop]. apply IH; assumption.
Qed.

(** Up to the last entry that satisfies a downward-closed test, every
    entry of a sorted list satisfies it. *)
Lemma findLastIndex_take (p : Id -> bool) (l : list Id) :
  (forall a b, p b = true -> notLater a b -> numericTime a -> p a = true) ->
  List.Forall numericTime l -> StronglySorted notLater l ->
  findLastIndex l p <> -1 ->
  List.Forall (fun e => p e = true) (take (Z.to_nat (findLastIndex l p + 1)) l).
Proof.
  intros Hdown. induction l as [| x l IH]; intros Hnum Hs; simpl; [congruence |].
  inversion Hs as [| ? ? Hl Hx]; subst.
  inversion Hnum as [| ? ? Hnx Hnl]; subst.
  pose proof (findLastIndex_ge l p) as Hge.
  destruct (Z.eqb_spec (findLastIndex l p) (-1)) as [E | E].
  - destruct (p x) eqn:Ex; [| congruence].
    intros _. cbn [Z.add Z.to_nat Pos.to_nat Pos.iter_op take Nat.add].
    change (Z.to_nat (0 + 1)) with 1%nat. cbn [take].
    constructor; [exact Ex | constructor].
  - intros _.
    replace (Z.to_nat (findLastIndex l p + 1 + 1))
      with (S (Z.to_nat (findLastIndex l p + 1))) by lia.
    cbn [take]. specialize (IH Hnl Hl E).
    constructor; [| exact IH].
    destruct l as [| y l']; [simpl in E; congruence |].
    replace (Z.to_nat (findLastIndex (y :: l') p + 1))
      with (S (Z.to_nat (findLastIndex (y :: l') p))) in IH by lia.
    cbn [take] in IH. inversion IH as [| ? ? Hy _]; subst.
    inversion Hx as [| ? ? Hxy _]; subst.
    apply (Hdown x y Hy Hxy Hnx).
Qed.

Lemma slice_bounds {A : Type} (start stop : Z) (l : list A) (x : A) :
  0 <= start ->
  In x (slice start stop l) ->
  In x (drop (Z.to_nat start) l) /\ In x (take (Z.to_nat stop) l).
Proof.
  intros Hs Hin. unfold slice in Hin. split.
  - rewrite <- (firstn_skipn (Z.to_nat (stop - start)) (drop (Z.to_nat start) l)).
    apply in_or_app. left. exact Hin.
  - destruct (Z.le_gt_cases start stop) as [Hle | Hgt].
    + rewrite firstn_skipn_comm in Hin.
      replace (Z.to_nat start + Z.to_nat (stop - start))%nat with (Z.to_nat stop) in Hin by lia.
      rewrite <- (firstn_skipn (Z.to_nat start) (take (Z.to_nat stop) l)).
      apply in_or_app. right. exact Hin.
    + replace (Z.to_nat (stop - start)) with 0%nat in Hin by lia. destruct Hin.
Qed.

Lemma last_liveIDs (messages : list LoggedMessageJSON) (m : LoggedMessageJSON) :
  last messages = Some m ->
  last (liveIDs messages) = Some (mkId (msg_id m) (snowflakeTime (msg_id m))).
Proof.
  induction messages as [| x [| y rest] IH]; [discriminate | |].
  - intros [= ->]. reflexivity.
  - intros H. exact (IH H).
Qed.

Lemma head_liveIDs (messages : list LoggedMessageJSON) (m : LoggedMessageJSON) :
  head messages = Some m ->
  head (liveIDs messages) = Some (mkId (msg_id m) (snowflakeTime (msg_id m))).
Proof. destruct messages; [discriminate |]. intros [= ->]. reflexivity. Qed.

(** X19. With neither end of the channel reached and numerals for the ids of
    the deleted records, whatever is inserted is the cached body of a
    deleted id whose time lies strictly between the time of the oldest
    (last) and the time of the newest (first) live message. *)
Theorem reAddDeletedMessages_window (loggedMessages : gmap string LoggedRecord)
    (messages : list LoggedMessageJSON) (deleted : list string)
    (result : list LoggedMessageJSON) (lowest highest m : LoggedMessageJSON) :
  (forall k, In k deleted -> is_Some (loggedMessages !! k) -> parseInt k <> None) ->
  last messages = Some lowest ->
  head messages = Some highest ->
  reAddDeletedMessages loggedMessages messages (Some deleted) false false = Some result ->
  In m result ->
  In m messages
  \/ exists k record,
       In k deleted
       /\ loggedMessages !! k = Some record /\ message record = Some m
       /\ JsNumber.gt (snowflakeTime k) (snowflakeTime (msg_id lowest)) = true
       /\ JsNumber.lt (snowflakeTime k) (snowflakeTime (msg_id highest)) = true.
Proof.
  intros Hnumeric Hlast Hhead H Hin.
  apply reAddDeletedMessages_cases in H.
  destruct H as [-> | (deleted' & lo & hi & [= <-] & Hlo & Hhi & Hl & Hh & H)];
    [left; exact Hin |].
  rewrite (last_liveIDs _ _ Hlast) in Hlo. injection Hlo as <-.
  rewrite (head_liveIDs _ _ Hhead) in Hhi. injection Hhi as <-.
  cbn [time lowestIDX highestIDX] in *.
  destruct (spliceLoop_provenance _ _ _ _ _ _ H Hin)
    as [Hlive | (e & record & He & Hhas & Hrec & Hm)]; [left; exact Hlive |].
  right. exists (id e), record.
  apply reAddIDs_not_live in He; [| exact Hhas].
  destruct (savedIDs_numeric _ _ Hnumeric) as [Hnum Hsorted].
  pose proof (findIndex_ge (fun e0 => JsNumber.gt (time e0) (snowflakeTime (msg_id lowest)))
                (savedIDs loggedMessages deleted)) as Hge.
  apply slice_bounds in He; [| lia]. destruct He as [Hd Ht].
  assert (Hsaved : In e (savedIDs loggedMessages deleted)).
  { rewrite <- (firstn_skipn (Z.to_nat (findIndex
       (fun e0 => JsNumber.gt (time e0) (snowflakeTime (msg_id lowest)))
       (savedIDs loggedMessages deleted))) (savedIDs loggedMessages deleted)).
    apply in_or_app. right. exact Hd. }
  unfold savedIDs in Hsaved. apply (Permutation_in _ (sortBy_perm _ _)) in Hsaved.
  apply collectSaved_In in Hsaved. destruct Hsaved as [Hdel Htime].
  split; [exact Hdel |]. split; [exact Hrec |]. split; [exact Hm |].
  rewrite <- Htime. split.
  - assert (Hall := findIndex_drop
                      (fun e0 => JsNumber.gt (time e0) (snowflakeTime (msg_id lowest)))
                      (savedIDs loggedMessages deleted)
                      (fun a b Ha Hab Hb => gt_upward _ _ _ Hb Ha Hab)
                      Hnum Hsorted Hl).
    rewrite List.Forall_forall in Hall. exact (Hall e Hd).
  - assert (Hall := findLastIndex_take
                      (fun e0 => JsNumber.lt (time e0) (snowflakeTime (msg_id highest)))
                      (savedIDs loggedMessages deleted)
                      (fun a b Hb Hab Ha => lt_downward _ _ _ Ha Hb Hab)
                      Hnum Hsorted Hh).
    rewrite List.Forall_forall in Hall. exact (Hall e Ht).
Qed.

Lemma reAddDeletedMessages_window_witness :
  In msg250 [msg300; msg200]
  \/ exists k record,
       In k ["4194304"; "1048576000"; "943718400"]
       /\ sampleStore !! k = Some record /\ message record = Some msg250
       /\ JsNumber.gt (snowflakeTime k) (snowflakeTime (msg_id msg200)) = true
       /\ JsNumber.lt (snowflakeTime k) (snowflakeTime (msg_id msg300)) = true.
Proof.
  apply (reAddDeletedMessages_window sampleStore [msg300; msg200]
           ["4194304"; "1048576000"; "943718400"] [msg300; msg250; msg200]).
  - intros k [<- | [<- | [<- | []]]] _; vm_compute; discriminate.
  - reflexivity.
  - reflexivity.
  - vm_compute. reflexivity.
  - right. left. reflexivity.
Defined.

(** ** Both ends reached *)

Lemma spliceLoop_ids_grow (loggedMessages : gmap string LoggedRecord) (reAddIDs : list Id) :
  forall (i : nat) (messages result : list LoggedMessageJSON) (k : string),
    spliceLoop loggedMessages i reAddIDs messages = Some result ->
    In k (messageIds messages) -> In k (messageIds result).
Proof.
  induction reAddIDs as [| e rest IH]; intros i messages result k; simpl.
  - intros [= <-] H. exact H.
  - destruct (hasId (id e) messages); [apply IH |].
    destruct (loggedMessages !! id e) as [record |]; [| discriminate].
    destruct (message record) as [m |]; [| apply IH].
    intros H Hin. apply (IH _ _ _ _ H).
    apply (Permutation_in _ (Permutation_sym (messageIds_splice i m messages))).
    right. exact Hin.
Qed.

(** After the last loop the id of every entry with a cached body is
    among the messages, when the store is keyed by id. *)
Lemma spliceLoop_complete (loggedMessages : gmap string LoggedRecord) (reAddIDs : list Id) :
  keyedById loggedMessages ->
  forall (i : nat) (messages result : list LoggedMessageJSON) (e : Id)
         (record : LoggedRecord) (m : LoggedMessageJSON),
    spliceLoop loggedMessages i reAddIDs messages = Some result ->
    In e reAddIDs ->
    loggedMessages !! id e = Some record -> message record = Some m ->
    In (id e) (messageIds result).
Proof.
  intros Hkey.
  induction reAddIDs as [| e0 rest IH]; intros i messages result e record m; simpl;
    [intros _ [] |].
  intros H [-> | Hin] Hrec Hm.
  - destruct (hasId (id e) messages) eqn:Ehas.
    + apply (spliceLoop_ids_grow _ _ _ _ _ _ H). apply hasId_In. exact Ehas.
    + rewrite Hrec, Hm in H.
      apply (spliceLoop_ids_grow _ _ _ _ _ _ H).
      apply (Permutation_in _ (Permutation_sym (messageIds_splice i m messages))).
      left. exact (Hkey _ _ _ Hrec Hm).
  - destruct (hasId (id e0) messages); [exact (IH _ _ _ _ _ _ H Hin Hrec Hm) |].
    destruct (loggedMessages !! id e0) as [record0 |]; [| discriminate].
    destruct (message record0) as [m0 |]; exact (IH _ _ _ _ _ _ H Hin Hrec Hm).
Qed.

Lemma collectSaved_complete (loggedMessages : gmap string LoggedRecord)
    (deleted : list string) (k : string) :
  In k deleted -> is_Some (loggedMessages !! k) ->
  In (mkId k (snowflakeTime k)) (collectSaved loggedMessages deleted).
Proof.
  induction deleted as [| k0 rest IH]; simpl; [tauto |].
  intros [-> | Hin] Hsome.
  - destruct Hsome as [r Hr]. rewrite Hr. left. reflexivity.
  - destruct (loggedMessages !! k0); [right |]; apply IH; assumption.
Qed.

Lemma slice_all {A : Type} (l : list A) :
  slice 0 (Z.of_nat (length l) - 1 + 1) l = l.
Proof.
  unfold slice. cbn [Z.to_nat drop].
  replace (Z.to_nat (Z.of_nat (length l) - 1 + 1 - 0)) with (length l) by lia.
  apply firstn_all.
Qed.

(** X20. When the page reaches both ends of the channel and is not empty,
    every listed deleted id with a cached body is among the messages
    afterwards (the store being keyed by id). An empty page restores
    nothing. *)
Theorem reAddDeletedMessages_restores_all (loggedMessages : gmap string LoggedRecord)
    (messages : list LoggedMessageJSON) (deleted : list string)
    (result : list LoggedMessageJSON) (k : string) (record : LoggedRecord)
    (m : LoggedMessageJSON) :
  keyedById loggedMessages ->
  messages <> [] ->
  reAddDeletedMessages loggedMessages messages (Some deleted) true true = Some result ->
  In k deleted ->
  loggedMessages !! k = Some record -> message record = Some m ->
  In k (messageIds result).
Proof.
  intros Hkey Hne H Hin Hrec Hm.
  assert (Hsaved : In (mkId k (snowflakeTime k)) (savedIDs loggedMessages deleted)).
  { unfold savedIDs. apply (Permutation_in _ (Permutation_sym (sortBy_perm _ _))).
    apply collectSaved_complete; [exact Hin | rewrite Hrec; eexists; reflexivity]. }
  unfold reAddDeletedMessages in H.
  destruct messages as [| m0 rest]; [congruence |].
  destruct deleted as [| d0 drest]; [destruct Hin |].
  destruct (savedIDs loggedMessages (d0 :: drest)) as [| s0 srest] eqn:Esaved;
    [destruct Hsaved |].
  rewrite <- Esaved in *.
  destruct (last (liveIDs (m0 :: rest))) as [lowest |]; [| discriminate].
  destruct (head (liveIDs (m0 :: rest))) as [highest |]; [| discriminate].
  cbn [lowestIDX highestIDX] in H.
  change (0 =? -1) with false in H. cbv iota in H.
  destruct (Z.eqb_spec (Z.of_nat (length (savedIDs loggedMessages (d0 :: drest))) - 1) (-1))
    as [E | _].
  { rewrite Esaved in E. simpl in E. lia. }
  rewrite slice_all in H.
  apply (spliceLoop_complete _ _ Hkey _ _ _ (mkId k (snowflakeTime k)) record m H).
  - apply (Permutation_in _ (Permutation_sym (sortBy_perm _ _))).
    apply in_or_app. left. exact Hsaved.
  - exact Hrec.
  - exact Hm.
Qed.

Lemma reAddDeletedMessages_restores_all_witness :
  In "4194304" (messageIds [msg300; msg250; msg200; msg1]).
Proof.
  apply (reAddDeletedMessages_restores_all sampleStore [msg300; msg200]
           ["4194304"; "1048576000"; "943718400"] [msg300; msg250; msg200; msg1]
           "4194304" (mkRecord (Some msg1)) msg1).
  - exact sampleStore_keyed.
  - discriminate.
  - vm_compute. reflexivity.
  - left. reflexivity.
  - reflexivity.
  - reflexivity.
Defined.

(** ** The merge keeps the page newest first *)

(** Sorting a list that is in order already changes nothing. *)
Lemma sortBy_sorted_id {A : Type} (cmp : A -> A -> comparison) (l : list A) :
  Sorted (fun a b => cmp a b <> Gt) l -> sortBy cmp l = l.
Proof.
  induction l as [| x l IH]; intros Hs; [reflexivity |].
  inversion Hs as [| ? ? Hl Hhd]; subst.
  cbn [sortBy foldr]. change (foldr (insertBy cmp) [] l) with (sortBy cmp l).
  rewrite (IH Hl).
  destruct l as [| y l']; [reflexivity |].
  inversion Hhd as [| ? ? Hxy]; subst. cbn [insertBy].
  destruct (cmp x y); congruence.
Qed.

Lemma sortBy_app {A : Type} (cmp : A -> A -> comparison) (l1 l2 : list A) :
  sortBy cmp (l1 ++ l2)%list = foldr (insertBy cmp) (sortBy cmp l2) l1.
Proof. unfold sortBy. apply foldr_app. Qed.

Section Weaving.
Variable loggedMessages : gmap string LoggedRecord.

Lemma Woven_live_messages (messages : list LoggedMessageJSON) :
  Woven loggedMessages (liveIDs messages) messages messages.
Proof.
  induction messages as [| m rest IH]; [constructor |].
  cbn [liveIDs List.map]. apply woven_live. exact IH.
Qed.

(** Inserting a deleted entry with a cached body keeps the weave. *)
Lemma Woven_insert (cmp : Id -> Id -> comparison) (x : Id) (record : LoggedRecord)
    (b : LoggedMessageJSON) (l : list Id) (tail merged : list LoggedMessageJSON) :
  loggedMessages !! id x = Some record ->
  message record = Some b ->
  msg_id b = id x ->
  time x = snowflakeTime (id x) ->
  Woven loggedMessages l tail merged ->
  exists merged', Woven loggedMessages (insertBy cmp x l) tail merged'.
Proof.
  intros Hrec Hb Hid Ht Hw.
  induction Hw as [| m rest tail merged Hw IH
                   | e record' b' rest tail merged Hrec' Hb' Hid' Ht' Hw IH].
  - exists [b]. cbn [insertBy]. eapply woven_new; try eassumption. constructor.
  - cbn [insertBy].
    destruct (cmp x (mkId (msg_id m) (snowflakeTime (msg_id m)))).
    + eexists. eapply woven_new; try eassumption. apply woven_live. exact Hw.
    + eexists. eapply woven_new; try eassumption. apply woven_live. exact Hw.
    + destruct IH as [merged' IH]. eexists. apply woven_live. exact IH.
  - cbn [insertBy].
    destruct (cmp x e).
    + eexists. eapply woven_new; try eassumption.
      eapply woven_new; try eassumption.
    + eexists. eapply woven_new; try eassumption.
      eapply woven_new; try eassumption.
    + destruct IH as [merged' IH]. eexists.
      eapply woven_new; try eassumption.
Qed.

Lemma Woven_tail_ids (l : list Id) (tail merged : list LoggedMessageJSON) :
  Woven loggedMessages l tail merged ->
  forall k, In k (messageIds tail) -> In k (List.map id l).
Proof.
  induction 1 as [| m rest tail merged Hw IH
                  | e record b rest tail merged _ _ _ _ Hw IH]; intros k Hk.
  - destruct Hk.
  - destruct Hk as [<- | Hk]; [left; reflexivity | right; exact (IH k Hk)].
  - right. exact (IH k Hk).
Qed.

(** The messages the weave predicts are the entries themselves, read as
    live messages. *)
Lemma Woven_liveIDs (l : list Id) (tail merged : list LoggedMessageJSON) :
  Woven loggedMessages l tail merged -> liveIDs merged = l.
Proof.
  induction 1 as [| m rest tail merged Hw IH
                  | e record b rest tail merged _ _ Hid Ht Hw IH].
  - reflexivity.
  - cbn [liveIDs List.map]. f_equal. exact IH.
  - cbn [liveIDs List.map]. fold (liveIDs merged). rewrite IH, Hid, <- Ht.
    destruct e; reflexivity.
Qed.

Lemma hasId_app (k : string) (l1 l2 : list LoggedMessageJSON) :
  hasId k (l1 ++ l2)%list = hasId k l1 || hasId k l2.
Proof. unfold hasId. apply existsb_app. Qed.

Lemma hasId_false (k : string) (messages : list LoggedMessageJSON) :
  ~ In k (messageIds messages) -> hasId k messages = false.
Proof.
  intros H. destruct (hasId k messages) eqn:E; [| reflexivity].
  apply hasId_In in E. contradiction.
Qed.

Lemma splice_at_end_of_prefix {A : Type} (seen tail : list A) (x : A) :
  splice (length seen) x (seen ++ tail)%list = ((seen ++ [x]) ++ tail)%list.
Proof.
  unfold splice. rewrite take_app_length, drop_app_length, <- app_assoc. reflexivity.
Qed.

(** With pairwise different ids, the last loop walks the weave: at
    index [length seen] the messages are [seen] followed by the live
    messages still to come, and the loop ends with [seen] followed by
    the predicted messages. *)
Lemma spliceLoop_Woven (l : list Id) (tail merged : list LoggedMessageJSON) :
  Woven loggedMessages l tail merged ->
  forall seen : list LoggedMessageJSON,
    List.NoDup (messageIds seen ++ List.map id l)%list ->
    spliceLoop loggedMessages (length seen) l (seen ++ tail)%list
    = Some (seen ++ merged)%list.
Proof.
  induction 1 as [| m rest tail merged Hw IH
                  | e record b rest tail merged Hrec Hb Hid Ht Hw IH]; intros seen Hnd.
  - reflexivity.
  - cbn [spliceLoop id].
    assert (Hhas : hasId (msg_id m) (seen ++ m :: tail)%list = true).
    { rewrite hasId_app. unfold hasId at 2. cbn [existsb].
      rewrite String.eqb_refl. apply orb_true_r. }
    rewrite Hhas.
    specialize (IH (seen ++ [m])%list).
    rewrite length_app in IH. cbn [length] in IH.
    replace (length seen + 1)%nat with (S (length seen)) in IH by lia.
    rewrite <- !app_assoc in IH. cbn [app] in IH.
    apply IH.
    unfold messageIds. rewrite List.map_app, <- app_assoc. exact Hnd.
  - cbn [spliceLoop].
    assert (Hhas : hasId (id e) (seen ++ tail)%list = false).
    { apply hasId_false. unfold messageIds. rewrite List.map_app.
      intros Hin. apply in_app_or in Hin.
      cbn [List.map] in Hnd. apply NoDup_remove_2 in Hnd.
      apply Hnd. apply in_or_app. destruct Hin as [Hin | Hin].
      - left. exact Hin.
      - right. exact (Woven_tail_ids _ _ _ Hw _ Hin). }
    rewrite Hhas, Hrec, Hb, splice_at_end_of_prefix.
    specialize (IH (seen ++ [b])%list).
    rewrite length_app in IH. cbn [length] in IH.
    replace (length seen + 1)%nat with (S (length seen)) in IH by lia.
    rewrite IH; [rewrite <- app_assoc; reflexivity |].
    unfold messageIds. rewrite List.map_app, <- app_assoc. cbn [List.map app].
    rewrite Hid. exact Hnd.
Qed.

End Weaving.

Lemma ids_liveIDs (messages : list LoggedMessageJSON) :
  List.map id (liveIDs messages) = messageIds messages.
Proof.
  unfold liveIDs, messageIds. rewrite List.map_map. reflexivity.
Qed.

Lemma collectSaved_NoDup (loggedMessages : gmap string LoggedRecord) (deleted : list string) :
  List.NoDup deleted -> List.NoDup (List.map id (collectSaved loggedMessages deleted)).
Proof.
  induction deleted as [| k rest IH]; intros Hnd; simpl; [constructor |].
  inversion Hnd as [| ? ? Hk Hrest]; subst.
  destruct (loggedMessages !! k); [| exact (IH Hrest)].
  cbn [List.map id]. constructor; [| exact (IH Hrest)].
  intros Hin. apply in_map_iff in Hin. destruct Hin as [e [<- He]].
  apply collectSaved_In in He. tauto.
Qed.

Lemma slice_NoDup {A B : Type} (f : A -> B) (start stop : Z) (l : list A) :
  List.NoDup (List.map f l) -> List.NoDup (List.map f (slice start stop l)).
Proof.
  intros H. unfold slice.
  rewrite <- (firstn_skipn (Z.to_nat start) l), List.map_app in H.
  apply NoDup_app_remove_l in H.
  rewrite <- (firstn_skipn (Z.to_nat (stop - start)) (drop (Z.to_nat start) l)),
    List.map_app in H.
  apply NoDup_app_remove_r in H. exact H.
Qed.

Lemma descending_antisym (a b : Id) : descending a b = Gt -> descending b a <> Gt.
Proof. unfold descending. apply subSign_antisym. Qed.

Lemma descending_notLater (a b : Id) : descending a b <> Gt <-> notLater b a.
Proof. unfold descending, notLater. apply subSign_gt. Qed.

(** With numeric times, a list in which no entry is followed by a later
    one is in descending order throughout. *)
Lemma newestFirst_descendingTimes (l : list Id) :
  List.Forall numericTime l -> newestFirst l -> descendingTimes l.
Proof.
  intros Hnum Hs. split; [exact Hnum |].
  induction l as [| x l IH]; [constructor |].
  inversion Hs as [| ? ? Hl Hhd]; subst.
  inversion Hnum as [| ? ? Hx Hnl]; subst.
  specialize (IH Hnl Hl).
  constructor; [exact IH |].
  destruct l as [| y l']; [constructor |].
  inversion Hhd as [| ? ? Hxy]; subst.
  apply descending_notLater in Hxy.
  inversion IH as [| ? ? _ Hy]; subst.
  inversion Hnl as [| ? ? Hny _]; subst.
  constructor; [exact Hxy |].
  eapply List.Forall_impl; [| exact Hy]. intros z Hz.
  unfold notLater in *.
  exact (gt_false_trans _ (time y) _ Hny Hz Hxy).
Qed.

Lemma descendingTimes_newestFirst (l : list Id) :
  descendingTimes l -> newestFirst l.
Proof.
  intros [_ Hs]. apply StronglySorted_Sorted in Hs.
  induction Hs as [| x l Hl IH Hhd]; [constructor |].
  constructor; [exact IH |].
  destruct Hhd as [| y l' Hxy]; constructor.
  apply descending_notLater. exact Hxy.
Qed.

Lemma liveIDs_numeric (messages : list LoggedMessageJSON) :
  (forall m, In m messages -> parseInt (msg_id m) <> None) ->
  List.Forall numericTime (liveIDs messages).
Proof.
  intros H. apply List.Forall_forall. intros e He.
  unfold liveIDs in He. apply in_map_iff in He. destruct He as [m [<- Hm]].
  unfold numericTime, snowflakeTime. cbn [time].
  destruct (parseInt (msg_id m)) as [n |] eqn:E.
  - apply timeOfInt_not_NaN.
  - exfalso. exact (H m Hm E).
Qed.

(** X21. The merge restores the order of the page, for numeric ids. When
    the ids of the live messages and of the deleted records are
    numerals, the live messages are in descending order of time with
    pairwise different ids, and the listed deleted ids are pairwise
    different, not live, and each record among them has its body cached
    under its id, then the messages are in descending order of time
    after the call as well. *)
Theorem reAddDeletedMessages_newest_first (loggedMessages : gmap string LoggedRecord)
    (messages : list LoggedMessageJSON) (deleted : list string)
    (channelStart channelEnd : bool) (result : list LoggedMessageJSON) :
  keyedById loggedMessages ->
  descendingTimes (liveIDs messages) ->
  (forall k, In k deleted -> is_Some (loggedMessages !! k) -> parseInt k <> None) ->
  List.NoDup (messageIds messages) ->
  List.NoDup deleted ->
  (forall k, In k deleted -> ~ In k (messageIds messages)) ->
  (forall k record, In k deleted -> loggedMessages !! k = Some record ->
                    message record <> None) ->
  reAddDeletedMessages loggedMessages messages (Some deleted) channelStart channelEnd
    = Some result ->
  descendingTimes (liveIDs result).
Proof.
  intros Hkey Hdesc Hnumeric Hlive Hdel Hdisj Hbody H.
  pose proof (descendingTimes_newestFirst _ Hdesc) as Hsorted.
  apply reAddDeletedMessages_cases in H.
  destruct H as [-> | (deleted' & lo & hi & [= <-] & _ & _ & _ & _ & H)];
    [exact Hdesc |].
  set (W := slice _ _ (savedIDs loggedMessages deleted)) in H.
  assert (HWnum : forall x, In x W -> numericTime x).
  { intros x Hx. subst W. apply slice_In in Hx.
    destruct (savedIDs_numeric _ _ Hnumeric) as [Hn _].
    rewrite List.Forall_forall in Hn. exact (Hn x Hx). }
  assert (Hids : List.NoDup (List.map id W)).
  { subst W. apply slice_NoDup. unfold savedIDs.
    apply (Permutation_NoDup (Permutation_map id (Permutation_sym (sortBy_perm _ _)))).
    apply collectSaved_NoDup. exact Hdel. }
  assert (HW : forall x, In x W ->
             In (id x) deleted /\ time x = snowflakeTime (id x)
             /\ exists record b, loggedMessages !! id x = Some record
                                 /\ message record = Some b /\ msg_id b = id x).
  { intros x Hx. subst W. apply slice_In in Hx. unfold savedIDs in Hx.
    apply (Permutation_in _ (sortBy_perm _ _)) in Hx.
    destruct (collectSaved_In _ _ _ Hx) as [Hin Ht].
    destruct (collectSaved_lookup _ _ _ Hx) as [record Hrec].
    split; [exact Hin |]. split; [exact Ht |].
    destruct (message record) as [b |] eqn:Eb.
    - exists record, b. split; [exact Hrec |]. split; [exact Eb |].
      exact (Hkey _ _ _ Hrec Eb).
    - exfalso. exact (Hbody _ _ Hin Hrec Eb). }
  clearbody W.
  assert (Hweave : exists merged,
             Woven loggedMessages (sortBy descending (W ++ liveIDs messages)%list)
                   messages merged).
  { rewrite sortBy_app, (sortBy_sorted_id _ _ Hsorted).
    clear H Hids HWnum. induction W as [| x W IHW].
    - exists messages. apply Woven_live_messages.
    - destruct IHW as [merged IHW]; [intros y Hy; apply HW; right; exact Hy |].
      destruct (HW x (or_introl eq_refl)) as (_ & Ht & record & b & Hrec & Hb & Hid).
      cbn [foldr].
      exact (Woven_insert loggedMessages descending x record b _ _ _ Hrec Hb Hid Ht IHW). }
  destruct Hweave as [merged Hweave].
  assert (Hnd : List.NoDup
                  (messageIds [] ++
                   List.map id (sortBy descending (W ++ liveIDs messages)%list))%list).
  { cbn [messageIds List.map app].
    apply (Permutation_NoDup (Permutation_map id (Permutation_sym (sortBy_perm _ _)))).
    rewrite List.map_app, ids_liveIDs.
    apply List.NoDup_app; [exact Hids | exact Hlive |].
    intros k Hk. apply in_map_iff in Hk. destruct Hk as [x [<- Hx]].
    apply Hdisj. apply (HW x Hx). }
  pose proof (spliceLoop_Woven loggedMessages _ _ _ Hweave [] Hnd) as Hrun.
  cbn [length app] in Hrun. rewrite Hrun in H. injection H as <-.
  rewrite (Woven_liveIDs loggedMessages _ _ _ Hweave).
  apply newestFirst_descendingTimes.
  - apply List.Forall_forall. intros z Hz.
    apply (Permutation_in _ (sortBy_perm _ _)) in Hz.
    apply in_app_or in Hz. destruct Hz as [Hz | Hz].
    + exact (HWnum z Hz).
    + destruct Hdesc as [Hn _]. rewrite List.Forall_forall in Hn. exact (Hn z Hz).
  - apply sortBy_sorted. intros a b. apply descending_antisym.
Qed.

Lemma reAddDeletedMessages_newest_first_witness :
  descendingTimes (liveIDs [msg300; msg250; msg200; msg1]).
Proof.
  apply (reAddDeletedMessages_newest_first sampleStore [msg300; msg200]
           ["4194304"; "1048576000"] true true).
  - exact sampleStore_keyed.
  - split; repeat constructor; vm_compute; reflexivity || discriminate.
  - intros k [<- | [<- | []]] _; vm_compute; discriminate.
  - repeat constructor; simpl; intuition discriminate.
  - repeat constructor; simpl; intuition discriminate.
  - intros k [<- | [<- | []]]; simpl; intuition discriminate.
  - intros k record [<- | [<- | []]] Hl; vm_compute in Hl;
      injection Hl as <-; discriminate.
  - vm_compute. reflexivity.
Defined.

(** A deleted entry without a cached body takes an index of its own in
    the merged sequence but no place among the messages, so a body
    inserted after it lands one place too far: the hypothesis on the
    bodies cannot be dropped. *)
Example reAddDeletedMessages_misplaced :
  let store : gmap string LoggedRecord :=
    <["1153433600" := mkRecord None]> sampleStore in
  liveIDs [msg300; msg200; msg250]
    = [mkId "1258291200" (ofInteger (DISCORD_EPOCH + 300));
       mkId "838860800" (ofInteger (DISCORD_EPOCH + 200));
       mkId "1048576000" (ofInteger (DISCORD_EPOCH + 250))]
  /\ snowflakeTime "1153433600" = ofInteger (DISCORD_EPOCH + 275)
  /\ reAddDeletedMessages store [msg300; msg200]
       (Some ["1048576000"; "1153433600"]) false false
     = Some [msg300; msg200; msg250].
Proof. vm_compute. repeat split. Qed.

(** ** No exception *)

(** X15. [reAddDeletedMessages] never throws: whenever the last loop
    reads [record.message], the record exists, because an entry without a
    record is always the entry of a live message and is skipped before. *)
Theorem reAddDeletedMessages_never_throws (loggedMessages : gmap string LoggedRecord)
    (messages : list LoggedMessageJSON) (deletedMessages : option (list string))
    (channelStart channelEnd : bool) :
  reAddDeletedMessages loggedMessages messages deletedMessages channelStart channelEnd
    <> None.
Proof.
  destruct (reAddDeletedMessages_returns loggedMessages messages deletedMessages
              channelStart channelEnd) as [result H].
  rewrite H. discriminate.
Qed.
